(** * MP4-to-MP3: the conversion service's guards, temp store and pipeline

    A shallow embedding of the repository's four server variants:
    - [src/server.js]: the RapidAPI variant (session gate, video-ID
      extraction, GET /api/convert);
    - [src/Dockerfile], the server from line 231 on: the RapidAPI variant
      without a login, whose downloader counts the redirects it follows;
    - [src/unnamed/part_001], first file: the yt-dlp variant;
    - [src/unnamed/part_001], second file: the Cobalt variant (host
      allow-list, per-entry guarded sweep, POST /api/convert).

    JavaScript strings are modelled as [string]: a sequence of code units,
    of which only the ASCII ones can match a pattern of the program.
    Timestamps ([Date.now()], [mtimeMs]) are integers of milliseconds; the
    modification time of a file is the file system's, not a reading of
    [Date.now()] by the program. *)

From Stdlib Require Import ZArith List Ascii String Bool Lia.
From stdpp Require Import base option list gmap strings fin_maps.
Import ListNotations.

Local Open Scope Z_scope.

(** ** JavaScript string helpers *)

Module Js.

(** [s.startsWith(p)], returning what follows the prefix. *)
Fixpoint strip_prefix (p s : string) : option string :=
  match p with
  | EmptyString => Some s
  | String a p' =>
      match s with
      | String b s' => if Ascii.eqb a b then strip_prefix p' s' else None
      | EmptyString => None
      end
  end.

Definition startsWith (s p : string) : bool :=
  match strip_prefix p s with Some _ => true | None => false end.

(** [s.substring(0, n)] for [0 <= n]. *)
Fixpoint take (n : nat) (s : string) : string :=
  match n, s with
  | S n', String c s' => String c (take n' s')
  | _, _ => EmptyString
  end.

(** Truthiness of a string value: only the empty string is falsy. *)
Definition truthy (s : string) : bool :=
  match s with EmptyString => false | String _ _ => true end.

(** Truthiness of a possibly-undefined string property. *)
Definition truthy_opt (o : option string) : bool :=
  match o with Some s => truthy s | None => false end.

(** [a || b] on strings. *)
Definition or_else (a b : string) : string := if truthy a then a else b.

(** [o || b] on a possibly-undefined string property. *)
Definition opt_or (o : option string) (b : string) : string :=
  match o with Some s => or_else s b | None => b end.

Definition chars (s : string) : list ascii := list_ascii_of_string s.

End Js.

(** ** Video-ID extraction ([extractVideoId], src/server.js) *)

Module VideoId.

(** The character class [[a-zA-Z0-9_-]]. *)
Definition is_id_char (c : ascii) : bool :=
  let n := nat_of_ascii c in
  ((97 <=? n)%nat && (n <=? 122)%nat)
  || ((65 <=? n)%nat && (n <=? 90)%nat)
  || ((48 <=? n)%nat && (n <=? 57)%nat)
  || (n =? 95)%nat || (n =? 45)%nat.

(** The capture group [([a-zA-Z0-9_-]{n})] matched at the head of [s]. *)
Fixpoint take_id (n : nat) (s : string) : option string :=
  match n with
  | O => Some EmptyString
  | S n' =>
      match s with
      | String c s' =>
          if is_id_char c then
            match take_id n' s' with
            | Some r => Some (String c r)
            | None => None
            end
          else None
      | EmptyString => None
      end
  end.

(** The alternatives of the non-capturing group of the first pattern, in
    the order the pattern lists them. *)
Definition markers : list string :=
  [ "youtube.com/watch?v="; "youtu.be/"; "youtube.com/embed/"; "youtube.com/v/" ].

(** The first pattern tried at one position: the alternatives in order,
    each followed by the capture group. *)
Fixpoint match_here (ms : list string) (s : string) : option string :=
  match ms with
  | [] => None
  | m :: ms' =>
      match Js.strip_prefix m s with
      | Some rest =>
          match take_id 11 rest with
          | Some id => Some id
          | None => match_here ms' s
          end
      | None => match_here ms' s
      end
  end.

(** [url.match(pattern)] for the first pattern, which has no anchor: the
    leftmost position at which it matches. *)
Fixpoint search (s : string) : option string :=
  match match_here markers s with
  | Some id => Some id
  | None =>
      match s with
      | String _ s' => search s'
      | EmptyString => None
      end
  end.

(** [url.match(/^([a-zA-Z0-9_-]{11})$/)]: the whole string is the ID. *)
Definition match_bare (s : string) : option string :=
  match take_id 11 s with
  | Some id => if (String.length s =? 11)%nat then Some id else None
  | None => None
  end.

(** [extractVideoId]: the patterns in order, [null] as [None]. *)
Definition extractVideoId (url : string) : option string :=
  match search url with
  | Some id => Some id
  | None => match_bare url
  end.

(** An 11-character video ID. *)
Definition is_id (s : string) : Prop :=
  String.length s = 11%nat /\ Forall (fun c => is_id_char c = true) (Js.chars s).

End VideoId.

(** ** The temp directory *)

Module Fs.

Inductive errno := ENOENT | EISDIR.

(** What [fs.stat] reports of an entry. *)
Record Stats := { mtimeMs : Z; size : Z; isDirectory : bool }.

(** The scratch directory [TEMP_DIR]: entry name to its stats. *)
Abbreviation dir := (gmap string Stats).

Inductive result (A : Type) := Ok (a : A) | Err (e : errno).
Arguments Ok {A} a.
Arguments Err {A} e.

(** [fs.stat(path.join(TEMP_DIR, file))]: fails on a missing entry. *)
Definition stat (d : dir) (file : string) : result Stats :=
  match d !! file with
  | Some st => Ok st
  | None => Err ENOENT
  end.

(** [fs.unlink(path.join(TEMP_DIR, file))]: fails on a missing entry and on
    a directory, and removes a regular file. *)
Definition unlink (d : dir) (file : string) : result dir :=
  match d !! file with
  | Some st => if isDirectory st then Err EISDIR else Ok (delete file d)
  | None => Err ENOENT
  end.

(** [fs.readdir(TEMP_DIR)] lists the entry names, in an order the program
    does not control. *)
Definition is_listing (files : list string) (d : dir) : Prop :=
  files ≡ₚ (map_to_list d).*1.

Definition MAX_FILE_AGE_MS : Z := 30 * 60 * 1000.

(** The sweep's test [now - stats.mtimeMs > MAX_FILE_AGE_MS]. *)
Definition expired (now : Z) (st : Stats) : bool :=
  now - mtimeMs st >? MAX_FILE_AGE_MS.

Inductive console_line :=
| CleanupError (e : errno)      (* console.error('Cleanup error:', ...) *)
| CleanedUp (file : string).    (* console.log(`Cleaned up old file: ...`) *)

End Fs.

(** *** [cleanupOldFiles] of src/server.js: one [try] around the whole loop *)

Module SweepA.
Import Fs.

(** The [for] loop; [Some e] when an [await] inside it threw [e], which
    leaves the loop. *)
Fixpoint loop (now : Z) (files : list string) (d : dir) : option errno * dir :=
  match files with
  | [] => (None, d)
  | file :: rest =>
      match stat d file with
      | Err e => (Some e, d)
      | Ok stats =>
          if expired now stats then
            match unlink d file with
            | Err e => (Some e, d)
            | Ok d' => loop now rest d'
            end
          else loop now rest d
      end
  end.

(** [files] is what [readdir] returned and [now] the one reading of
    [Date.now()] taken before the loop. *)
Definition cleanupOldFiles (now : Z) (files : list string) (d : dir)
  : dir * list console_line :=
  match loop now files d with
  | (None, d') => (d', [])
  | (Some e, d') => (d', [CleanupError e])
  end.

End SweepA.

(** *** [cleanupOldFiles] of src/unnamed/part_001: a [try] per entry *)

Module SweepB.
Import Fs.

Fixpoint loop (now : Z) (files : list string) (d : dir) : dir * list console_line :=
  match files with
  | [] => (d, [])
  | file :: rest =>
      match stat d file with
      | Err _ => loop now rest d                      (* catch (err) { continue; } *)
      | Ok stats =>
          if expired now stats then
            match unlink d file with
            | Err _ => loop now rest d                (* catch (err) { continue; } *)
            | Ok d' =>
                let '(d'', out) := loop now rest d' in
                (d'', CleanedUp file :: out)
            end
          else loop now rest d
      end
  end.

Definition cleanupOldFiles (now : Z) (files : list string) (d : dir)
  : dir * list console_line :=
  loop now files d.

End SweepB.

(** ** Numbers as text *)

Module Radix.

Definition digits : string := "0123456789abcdefghijklmnopqrstuvwxyz".

Definition digit (k : Z) : ascii :=
  match String.get (Z.to_nat k) digits with
  | Some c => c
  | None => "0"%char
  end.

(** The digits of [n >= 0] in base [r], most significant first, in front
    of [acc]; [fuel] bounds the number of digits. *)
Fixpoint render (fuel : nat) (r n : Z) (acc : string) : string :=
  let acc' := String (digit (n mod r)) acc in
  match fuel with
  | O => acc'
  | S fuel' => if n / r =? 0 then acc' else render fuel' r (n / r) acc'
  end.

(** [n.toString(r)] for an integer [n] and [2 <= r <= 36]. *)
Definition toString (r n : Z) : string :=
  if n <? 0 then String "-"%char (render (Z.to_nat (Z.log2 (- n))) r (- n) EmptyString)
  else render (Z.to_nat (Z.log2 n)) r n EmptyString.

End Radix.

(** ** The access gate (src/server.js) *)

Module Gate.

(** The registry [sessions = new Map()]: session id to [createdAt], in
    insertion order, each id at most once. *)
Definition registry := list (string * Z).

(** [sessions.has(k)] *)
Fixpoint has (m : registry) (k : string) : bool :=
  match m with
  | [] => false
  | (k', _) :: m' => if String.eqb k' k then true else has m' k
  end.

Fixpoint get (m : registry) (k : string) : option Z :=
  match m with
  | [] => None
  | (k', v) :: m' => if String.eqb k' k then Some v else get m' k
  end.

(** [sessions.set(k, {createdAt: v})]: an id already present keeps its
    place and takes the new value, a new one goes last. *)
Fixpoint set (m : registry) (k : string) (v : Z) : registry :=
  match m with
  | [] => [(k, v)]
  | (k', v') :: m' =>
      if String.eqb k' k then (k, v) :: m' else (k', v') :: set m' k v
  end.

Definition SESSION_MAX_AGE_MS : Z := 24 * 60 * 60 * 1000.

(** The eviction loop [for (const [sid, data] of sessions)]: the entries
    in insertion order, each tested against its own reading of
    [Date.now()] (reading number [i] for the entry visited first), and
    deleted from the map when the test holds. *)
Fixpoint evict (clock : nat -> Z) (i : nat) (m : registry) : registry :=
  match m with
  | [] => []
  | (sid, createdAt) :: m' =>
      if clock i - createdAt >? SESSION_MAX_AGE_MS
      then evict clock (S i) m'
      else (sid, createdAt) :: evict clock (S i) m'
  end.

(** [generateSessionId]: [rnd] is [Math.random().toString(36).substring(2)]
    and [now] the reading of [Date.now()]. *)
Definition generateSessionId (rnd : string) (now : Z) : string :=
  (rnd ++ Radix.toString 36 now)%string.

(** What [isAuthenticated] reads of a request. *)
Record credentials := {
  header_x_session_id : option string;   (* req.headers['x-session-id'] *)
  query_sessionId : option string        (* req.query.sessionId *)
}.

Definition isAuthenticated (req : credentials) (sessions : registry) : bool :=
  let sessionId :=
    if Js.truthy_opt (header_x_session_id req)
    then header_x_session_id req
    else query_sessionId req in
  match sessionId with
  | Some sid => has sessions sid
  | None => false
  end.

Inductive auth_reply :=
| Granted (sessionId : string)   (* 200 { success: true, sessionId } *)
| Denied.                        (* 401 { error: 'Invalid password' } *)

(** The handler of POST /api/auth. The readings of [Date.now()], in the
    order the handler takes them: [clock 0] in [generateSessionId],
    [clock 1] for [createdAt], [clock (2 + i)] at the i-th entry of the
    eviction loop. *)
Definition auth (AUTH_PASSWORD : string) (password : option string) (rnd : string)
    (clock : nat -> Z) (sessions : registry) : auth_reply * registry :=
  match password with
  | Some p =>
      if String.eqb p AUTH_PASSWORD then
        let sessionId := generateSessionId rnd (clock 0%nat) in
        let sessions1 := set sessions sessionId (clock 1%nat) in
        let sessions2 := evict clock 2 sessions1 in
        (Granted sessionId, sessions2)
      else (Denied, sessions)
  | None => (Denied, sessions)
  end.

End Gate.

(** ** Requests, replies and the effects of a handler *)

Module Http.

Inductive json := JStr (s : string) | JBool (b : bool).

(** A JSON object sent with [res.json]: field name and value. *)
Definition body := list (string * json).

Inductive reply :=
| Json (status : Z) (b : body)        (* res.status(status).json(b) *)
| Attachment (file filename : string) (length : option Z).
    (* the temp file streamed under a name, with the Content-Length the
       handler sets itself, if it does *)

(** What the upstream answers to a GET of the download URL. *)
Record response := {
  statusCode : Z;
  location : option string;   (* response.headers.location *)
  contentLength : Z
}.

(** What [protocol.get(url, ...)] comes to: a response, the request's
    'error' event, or an exception thrown by the call itself, which makes
    no request, on a string it cannot take for a URL of its protocol. *)
Inductive net_reply :=
| Answer (r : response)
| NetError (message : string)
| BadUrl (message : string).

Definition network := string -> net_reply.

(** The file system's clock at the two moments it stamps the file of a
    download: when the write stream is opened and when the last chunk is
    written. Both come after the reading of [Date.now()] that names the
    file. *)
Record stamps := { opened : Z; finished : Z }.

(** A thrown [Error], or a rejected promise's reason. *)
Inductive error := Error (message : string).

Definition message (e : error) : string := match e with Error m => m end.

(** What a handler does to the world outside, in order. *)
Inductive event :=
| CallResolver (request : string)
| HttpGet (url : string)
| OpenWrite (file : string)
| Unlink (file : string)
| Respond (r : reply).

(** The temp directory, the effects so far, and the handler's variable
    that its [catch] block reads ([tempAudioPath], [null] as [None]). *)
Record world := {
  temp : gmap string Fs.Stats;
  log : list event;
  slot : option string
}.

Inductive outcome (A : Type) := Return (a : A) | Throw (e : error).
Arguments Return {A} a.
Arguments Throw {A} e.

(** A step of a handler: [None] when the promise awaited has not settled
    within the fuel given to the redirect recursion. *)
Definition M (A : Type) : Type := world -> option (outcome A * world).

Definition ret {A} (a : A) : M A := fun w => Some (Return a, w).
Definition throw {A} (e : error) : M A := fun w => Some (Throw e, w).
Definition pending {A} : M A := fun _ => None.

Definition bind {A B} (c : M A) (k : A -> M B) : M B :=
  fun w =>
    match c w with
    | Some (Return a, w') => k a w'
    | Some (Throw e, w') => Some (Throw e, w')
    | None => None
    end.

(** [try { c } catch (error) { h error }] *)
Definition try_catch {A} (c : M A) (h : error -> M A) : M A :=
  fun w =>
    match c w with
    | Some (Return a, w') => Some (Return a, w')
    | Some (Throw e, w') => h e w'
    | None => None
    end.

Definition emit (e : event) : M unit :=
  fun w => Some (Return tt, {| temp := temp w; log := log w ++ [e]; slot := slot w |}).

Definition modify (f : gmap string Fs.Stats -> gmap string Fs.Stats) : M unit :=
  fun w => Some (Return tt, {| temp := f (temp w); log := log w; slot := slot w |}).

Definition assign (v : option string) : M unit :=
  fun w => Some (Return tt, {| temp := temp w; log := log w; slot := v |}).

Definition read_slot : M (option string) :=
  fun w => Some (Return (slot w), w).

Definition read_temp : M (gmap string Fs.Stats) :=
  fun w => Some (Return (temp w), w).

(** [createWriteStream(file)]: the file exists, empty, from the moment
    [mtime] of the file system's clock on. *)
Definition open_write (mtime : Z) (file : string) : M unit :=
  bind (emit (OpenWrite file)) (fun _ =>
  modify (insert file {| Fs.mtimeMs := mtime; Fs.size := 0; Fs.isDirectory := false |})).

(** [response.pipe(file)] up to the stream's 'finish': [n] bytes, the
    last of them written at [mtime] of the file system's clock. *)
Definition pipe_to (mtime : Z) (file : string) (n : Z) : M unit :=
  modify (insert file {| Fs.mtimeMs := mtime; Fs.size := n; Fs.isDirectory := false |}).

(** [await ensureTempDir()]: it resolves when the temp directory is there
    or could be made, and rejects with the reason of [fs.mkdir]
    otherwise. *)
Definition ensureTempDir (mkdir_failure : option string) : M unit :=
  match mkdir_failure with
  | None => ret tt
  | Some reason => throw (Error reason)
  end.

(** An unlink whose failure is dropped: [unlink(file, () => { })] and
    [fs.unlink(file).catch(() => { })]. *)
Definition unlink_quiet (file : string) : M unit :=
  bind (emit (Unlink file)) (fun _ =>
  modify (fun d => match Fs.unlink d file with Fs.Ok d' => d' | Fs.Err _ => d end)).

(** [res.status(status).json(b)] *)
Definition respond (r : reply) : M reply :=
  bind (emit (Respond r)) (fun _ => ret r).

(** [await fs.stat(file)] *)
Definition stat (file : string) : M Fs.Stats :=
  bind read_temp (fun d =>
  match Fs.stat d file with
  | Fs.Ok st => ret st
  | Fs.Err _ => throw (Error "ENOENT: no such file or directory")
  end).

Definition initial (d : gmap string Fs.Stats) : world :=
  {| temp := d; log := []; slot := None |}.

(** [s.includes(p)] *)
Fixpoint includes (s p : string) : bool :=
  if Js.startsWith s p then true
  else match s with
       | String _ s' => includes s' p
       | EmptyString => false
       end.

(** [protocol.get(url, ...)] on the network [net]. The call parses the
    string with [new URL(url)], which throws on a string without a
    scheme, such as a relative reference, whatever the network; on any
    other string the network tells. *)
Definition protocol_get (net : network) (url : string) : net_reply :=
  if includes url ":" then net url else BadUrl "Invalid URL".

(** [sanitize(name).substring(0, 100)] *)
Definition capped (sanitize : string -> string) (name : string) : string :=
  Js.take 100 (sanitize name).

(** The temp file's name [`${Date.now()}-${rnd}.mp3`], where [rnd] is
    [Math.random().toString(36).substring(7)]. *)
Definition temp_name (now : Z) (rnd : string) : string :=
  Radix.toString 10 now +:+ "-" +:+ rnd +:+ ".mp3".

End Http.

Declare Scope handler_scope.
Delimit Scope handler_scope with handler.
Notation "'let*' x := c 'in' k" := (Http.bind c (fun x => k))
  (at level 10, x name, c at level 100, k at level 200) : handler_scope.
Notation "'run' c 'then' k" := (Http.bind c (fun _ => k))
  (at level 10, c at level 100, k at level 200) : handler_scope.

(** ** The RapidAPI variant (src/server.js) *)

Module RapidApi.
Import Http.
Local Open Scope handler_scope.

(** [result.audio] *)
Record media := { media_url : option string; media_link : option string }.

(** An element of [result.formats]. *)
Record format := {
  mimeType : option string;
  format_name : option string;     (* f.format *)
  format_url : option string;
  format_link : option string
}.

(** The resolver's parsed answer, as far as the handler reads it. *)
Record api_result := {
  link : option string;
  url : option string;
  downloadUrl : option string;
  audio : option media;
  formats : option (list format);
  title : option string;
  error : option string;
  message : option string
}.

(** [rapidApiRequest(path)] settles with the parsed body or rejects. *)
Inductive api_reply :=
| ApiJson (r : api_result)
| ApiReject (reason : string).

Definition resolver := string -> api_reply.

Definition rapidApiRequest (api : resolver) (path : string) : M api_result :=
  run emit (CallResolver path) then
  match api path with
  | ApiJson r => ret r
  | ApiReject reason => throw (Error reason)
  end.

(** [a || b] on possibly-undefined strings, as a possibly-undefined string. *)
Definition first_truthy (a b : option string) : option string :=
  if Js.truthy_opt a then a else b.

(** [f.mimeType?.includes('audio') || f.format === 'mp3'] *)
Definition is_audio_format (f : format) : bool :=
  match mimeType f with
  | Some m => includes m "audio"
  | None => false
  end
  || match format_name f with
     | Some n => String.eqb n "mp3"
     | None => false
     end.

(** A value that passes [if (v)]. *)
Definition if_truthy (o : option string) : option string :=
  if Js.truthy_opt o then o else None.

(** The handler's search for a download link among the answer's shapes,
    [None] when [!downloadUrl] holds after it. *)
Definition pick_link (result : api_result) : option string :=
  if Js.truthy_opt (link result) then link result
  else if Js.truthy_opt (url result) then url result
  else if Js.truthy_opt (downloadUrl result) then downloadUrl result
  else match audio result with
       | Some a => if_truthy (first_truthy (media_url a) (media_link a))
       | None =>
           match formats result with
           | Some fs =>
               match List.find is_audio_format fs with
               | Some f => if_truthy (first_truthy (format_url f) (format_link f))
               | None => None
               end
           | None => None
           end
       end.

(** [title = result.title || 'audio'] in every branch that finds a link;
    the initial value is ['audio'] as well. *)
Definition pick_title (result : api_result) : string :=
  Js.opt_or (title result) "audio".

(** [response.statusCode >= 300 && response.statusCode < 400 &&
    response.headers.location]: where the redirect leads, if it is one. *)
Definition redirect_target (response : Http.response) : option string :=
  if (300 <=? statusCode response) && (statusCode response <? 400)
  then match location response with
       | Some next => if Js.truthy next then Some next else None
       | None => None
       end
  else None.

(** [downloadFile] of src/server.js: the inner [makeRequest].
    [in_callback] tells the call made from the response callback from the
    first one, made in the executor of the promise: an exception thrown by
    [protocol.get] rejects the promise in the executor, and is caught by
    nobody in the callback, where the promise is left unsettled. *)
Fixpoint makeRequest (fuel : nat) (net : network) (t : stamps)
    (destPath : string) (in_callback : bool) (downloadUrl : string) : M unit :=
  match fuel with
  | O => pending
  | S fuel' =>
      match protocol_get net downloadUrl with
      | BadUrl reason => if in_callback then pending else throw (Error reason)
      | NetError reason =>
          run emit (HttpGet downloadUrl) then
          run unlink_quiet destPath then throw (Error reason)
      | Answer response =>
          run emit (HttpGet downloadUrl) then
          match redirect_target response with
          | Some next => makeRequest fuel' net t destPath true next
          | None =>
              if negb (statusCode response =? 200)
              then throw (Error ("Download failed with status "
                                  +:+ Radix.toString 10 (statusCode response)))
              else pipe_to (finished t) destPath (contentLength response)
          end
      end
  end.

Definition downloadFile (fuel : nat) (net : network) (t : stamps)
    (url destPath : string) : M unit :=
  run open_write (opened t) destPath then
  makeRequest fuel net t destPath false url.

(** What GET /api/convert reads of the request; a parameter of the query
    is given when it is there as a string. *)
Record convert_request := {
  creds : Gate.credentials;
  query_url : option string;      (* req.query.url *)
  query_quality : option string   (* req.query.quality *)
}.

Section Handler.

(** [validator.isURL(url, { protocols: ['http', 'https'],
    require_protocol: true })] and [sanitize] of sanitize-filename are
    libraries outside the repository. *)
Variable isURL : string -> bool.
Variable sanitize : string -> string.

(** [sanitize(title).substring(0, 100) || 'audio'] *)
Definition safeTitle (title : string) : string :=
  Js.or_else (capped sanitize title) "audio".

Definition served_name (title : string) : string := safeTitle title +:+ ".mp3".

(** The body of the handler's [try]; [now] is the reading of
    [Date.now()] in the temp file's name. *)
Definition convert_try (api : resolver) (net : network) (fuel : nat)
    (now : Z) (rnd : string) (t : stamps) (videoId quality : string) : M reply :=
  let* result := rapidApiRequest api
    ("/download?id=" +:+ videoId +:+ "&format=mp3&quality=" +:+ quality +:+ "kbps") in
  match pick_link result with
  | Some downloadUrl =>
      let filename := served_name (pick_title result) in
      let tempPath := temp_name now rnd in
      run downloadFile fuel net t downloadUrl tempPath then
      let* stats := stat tempPath in
      respond (Attachment tempPath filename (Some (Fs.size stats)))
  | None =>
      respond (Json 400
        [ ("error", JStr "Could not get download link. The video might be restricted or unavailable.");
          ("details", JStr (Js.opt_or (first_truthy (error result) (message result))
                                      "Unknown error")) ])
  end.

(** The handler of GET /api/convert. *)
Definition convert (sessions : Gate.registry) (api : resolver) (net : network)
    (fuel : nat) (now : Z) (rnd : string) (t : stamps) (req : convert_request)
  : M reply :=
  if negb (Gate.isAuthenticated (creds req) sessions) then
    respond (Json 401 [ ("error", JStr "Unauthorized") ])
  else
    let quality := match query_quality req with Some q => q | None => "128" end in
    match query_url req with
    | None => respond (Json 400 [ ("error", JStr "Invalid YouTube URL") ])
    | Some u =>
        if negb (Js.truthy u) || negb (isURL u) then
          respond (Json 400 [ ("error", JStr "Invalid YouTube URL") ])
        else
          match VideoId.extractVideoId u with
          | None =>
              respond (Json 400 [ ("error", JStr "Could not extract video ID from URL") ])
          | Some videoId =>
              try_catch (convert_try api net fuel now rnd t videoId quality)
                (fun error =>
                   respond (Json 500
                     [ ("error", JStr "Conversion failed. Please try again.");
                       ("details", JStr (Http.message error)) ]))
          end
    end.

End Handler.

(** The read stream's 'close' handler: the temp file is unlinked, a
    failure is logged. *)
Definition on_close (tempPath : string) : M unit := unlink_quiet tempPath.

End RapidApi.

(** ** The RapidAPI variant without a login (src/Dockerfile, from line 231) *)

Module Mp36.
Import Http.
Local Open Scope handler_scope.

(** [downloadFile] of src/Dockerfile: the inner
    [makeRequest(downloadUrl, redirectCount = 0)], which refuses to go on
    once it has followed more than five redirects; for the rest it is the
    one of src/server.js. *)
Fixpoint makeRequest (fuel : nat) (net : network) (t : stamps)
    (destPath : string) (in_callback : bool) (downloadUrl : string)
    (redirectCount : Z) : M unit :=
  match fuel with
  | O => pending
  | S fuel' =>
      if redirectCount >? 5 then throw (Error "Too many redirects")
      else
        match protocol_get net downloadUrl with
        | BadUrl reason => if in_callback then pending else throw (Error reason)
        | NetError reason =>
            run emit (HttpGet downloadUrl) then
            run unlink_quiet destPath then throw (Error reason)
        | Answer response =>
            run emit (HttpGet downloadUrl) then
            match RapidApi.redirect_target response with
            | Some next =>
                makeRequest fuel' net t destPath true next (redirectCount + 1)
            | None =>
                if negb (statusCode response =? 200)
                then throw (Error ("Download failed with status "
                                    +:+ Radix.toString 10 (statusCode response)))
                else pipe_to (finished t) destPath (contentLength response)
            end
        end
  end.

Definition downloadFile (fuel : nat) (net : network) (t : stamps)
    (url destPath : string) : M unit :=
  run open_write (opened t) destPath then
  makeRequest fuel net t destPath false url 0.

End Mp36.

(** ** The yt-dlp variant (src/unnamed/part_001, first file) *)

Module YtDlp.
Import Http.

Section Handler.
Variable sanitize : string -> string.

(** [sanitize(info.title || 'audio').substring(0, 100)] *)
Definition safeTitle (info_title : option string) : string :=
  capped sanitize (Js.opt_or info_title "audio").

(** The name given to [res.download]: [`${safeTitle}.mp3`]. *)
Definition served_name (info_title : option string) : string :=
  safeTitle info_title +:+ ".mp3".

End Handler.
End YtDlp.

(** ** The Cobalt variant (src/unnamed/part_001, second file) *)

Module Cobalt.
Import Http.
Local Open Scope handler_scope.

Definition allowedDomains : list string :=
  [ "youtube.com"; "www.youtube.com"; "m.youtube.com"; "youtu.be" ].

(** The service's parsed answer. *)
Record cobalt_json := {
  status : option string;
  text : option string;
  url : option string;
  filename : option string
}.

Inductive cobalt_reply :=
| CobaltJson (r : cobalt_json)
| CobaltUnparsable                      (* JSON.parse throws *)
| CobaltNetError (reason : string).     (* the request's 'error' event *)

(** What [getCobaltDownloadUrl] resolves with. *)
Record cobalt_result := { result_url : option string; result_filename : string }.

(** [result.status === s] *)
Definition status_is (result : cobalt_json) (s : string) : bool :=
  match status result with
  | Some st => String.eqb st s
  | None => false
  end.

Definition getCobaltDownloadUrl (service : string -> cobalt_reply)
    (youtubeUrl : string) : M cobalt_result :=
  run emit (CallResolver youtubeUrl) then
  match service youtubeUrl with
  | CobaltJson result =>
      let resolved :=
        {| result_url := url result;
           result_filename := Js.opt_or (filename result) "audio.mp3" |} in
      if status_is result "error" then
        throw (Error (Js.opt_or (text result) "Cobalt API error"))
      else if status_is result "redirect" || status_is result "stream" then
        ret resolved
      else if Js.truthy_opt (url result) then ret resolved
      else throw (Error "Unexpected response from Cobalt API")
  | CobaltUnparsable => throw (Error "Failed to parse Cobalt response")
  | CobaltNetError reason => throw (Error ("Cobalt API request failed: " +:+ reason))
  end.

(** [downloadFile]: it calls itself on a 301 or 302; [url] is [None] for
    [undefined], on which [url.startsWith] throws. Every call makes a
    promise of its own, in whose executor [protocol.get] runs, so an
    exception it throws rejects. The write stream opens and writes
    without an error of its own. *)
Fixpoint downloadFile (fuel : nat) (net : network) (t : stamps)
    (url : option string) (destPath : string) : M unit :=
  match fuel with
  | O => pending
  | S fuel' =>
      match url with
      | None => throw (Error "Cannot read properties of undefined (reading 'startsWith')")
      | Some u =>
          match protocol_get net u with
          | BadUrl reason => throw (Error reason)
          | NetError reason => run emit (HttpGet u) then throw (Error reason)
          | Answer response =>
              run emit (HttpGet u) then
              if (statusCode response =? 301) || (statusCode response =? 302)
              then downloadFile fuel' net t (location response) destPath
              else if negb (statusCode response =? 200)
              then throw (Error ("Failed to download: "
                                  +:+ Radix.toString 10 (statusCode response)))
              else
                run open_write (opened t) destPath then
                pipe_to (finished t) destPath (contentLength response)
          end
      end
  end.

Section Handler.

(** [validator.isURL] with the handler's options, [new URL(url).hostname]
    ([None] when the constructor throws) and [sanitize] of
    sanitize-filename are libraries outside the repository. *)
Variable isURL : string -> bool.
Variable hostname : string -> option string.
Variable sanitize : string -> string.

Definition isValidYouTubeUrl (url : string) : bool :=
  if negb (isURL url) then false
  else match hostname url with
       | Some h => bool_decide (h ∈ allowedDomains)
       | None => false
       end.

(** [sanitize(cobaltResult.filename || 'audio').substring(0, 100)] *)
Definition safeFilename (result_name : string) : string :=
  capped sanitize (Js.or_else result_name "audio").

Definition served_name (result_name : string) : string :=
  safeFilename result_name +:+ ".mp3".

(** The handler of POST /api/convert; [body_url] is [req.body.url] when
    it is a string, [mkdir_failure] tells how [ensureTempDir] ends and
    [now] is the reading of [Date.now()] in the temp file's name. No
    header has been sent when the [catch] block runs. *)
Definition convert (service : string -> cobalt_reply) (net : network)
    (fuel : nat) (mkdir_failure : option string) (now : Z) (rnd : string)
    (t : stamps) (body_url : option string) : M reply :=
  match body_url with
  | None => respond (Json 400 [ ("error", JStr "URL is required") ])
  | Some url =>
      if negb (Js.truthy url) then
        respond (Json 400 [ ("error", JStr "URL is required") ])
      else if negb (isValidYouTubeUrl url) then
        respond (Json 400
          [ ("error", JStr "Invalid YouTube URL. Only YouTube links are supported.") ])
      else
        run assign None then                      (* let tempAudioPath = null *)
        try_catch
          (run ensureTempDir mkdir_failure then
           let* cobaltResult := getCobaltDownloadUrl service url in
           let name := served_name (result_filename cobaltResult) in
           run assign (Some (temp_name now rnd)) then
           run downloadFile fuel net t (result_url cobaltResult) (temp_name now rnd) then
           respond (Attachment (temp_name now rnd) name None))
          (fun error =>
             let* tempAudioPath := read_slot in
             run (if Js.truthy_opt tempAudioPath
                  then match tempAudioPath with
                       | Some file => unlink_quiet file
                       | None => ret tt
                       end
                  else ret tt) then
             respond (Json 500
               [ ("error", JStr "Conversion failed. Please check the URL and try again.") ]))
  end.

End Handler.

(** The callback of [res.download], run once the transfer ended: it
    unlinks the file the handler's variable names and, when the transfer
    failed ([err]) before any header was sent, answers 500 itself. *)
Definition on_sent (err : option error) (headersSent : bool) : M unit :=
  let* tempAudioPath := read_slot in
  run (if Js.truthy_opt tempAudioPath
       then match tempAudioPath with
            | Some file => unlink_quiet file
            | None => ret tt
            end
       else ret tt) then
  match err with
  | Some _ =>
      if negb headersSent
      then run respond (Json 500 [ ("error", JStr "Download failed") ]) then ret tt
      else ret tt
  | None => ret tt
  end.

End Cobalt.

(** ** GET /api/info (src/server.js) *)

Module Info.
Import Http.
Local Open Scope handler_scope.

(** A number or a string of the resolver's answer. *)
Inductive scalar := Str (s : string) | Num (n : Z).

(** Truthiness: the empty string and zero are falsy. *)
Definition truthy_scalar (v : option scalar) : bool :=
  match v with
  | Some (Str s) => Js.truthy s
  | Some (Num n) => negb (n =? 0)
  | None => false
  end.

(** [result.channel] *)
Record channel_info := { channel_name : option string }.

(** An element of [result.thumbnail] or [result.thumbnails]. *)
Record thumb := { thumb_url : option string }.

(** The resolver's parsed answer to a details request, as far as the
    handler reads it. *)
Record video_details := {
  error : option scalar;
  title : option string;
  channel : option channel_info;
  author : option string;
  duration : option scalar;
  lengthSeconds : option scalar;
  thumbnail : option (list thumb);
  thumbnails : option (list thumb)
}.

Inductive api_reply :=
| ApiJson (r : video_details)
| ApiReject (reason : string).

Definition resolver := string -> api_reply.

(** [rapidApiRequest(path)], its answer read as video details. *)
Definition rapidApiRequest (api : resolver) (path : string) : M video_details :=
  run emit (CallResolver path) then
  match api path with
  | ApiJson r => ret r
  | ApiReject reason => throw (Error reason)
  end.

(** What the handler sends: the details, or an error body. *)
Inductive reply :=
| Details (title author : string) (duration : scalar) (thumbnail : string)
| Refused (status : Z) (error : string).   (* res.status(status).json({ error }) *)

(** [list?.[0]?.url] *)
Definition first_url (l : option (list thumb)) : option string :=
  match l with
  | Some (t :: _) => thumb_url t
  | _ => None
  end.

(** [result.channel?.name || result.author || 'Unknown Artist'] *)
Definition pick_author (result : video_details) : string :=
  let name := match channel result with Some c => channel_name c | None => None end in
  Js.opt_or (RapidApi.first_truthy name (author result)) "Unknown Artist".

(** [result.duration || result.lengthSeconds || 0] *)
Definition pick_duration (result : video_details) : scalar :=
  if truthy_scalar (duration result) then
    match duration result with Some v => v | None => Num 0 end
  else if truthy_scalar (lengthSeconds result) then
    match lengthSeconds result with Some v => v | None => Num 0 end
  else Num 0.

(** [result.thumbnail?.[0]?.url || result.thumbnails?.[0]?.url || ''] *)
Definition pick_thumbnail (result : video_details) : string :=
  Js.opt_or (RapidApi.first_truthy (first_url (thumbnail result))
                                   (first_url (thumbnails result))) "".

(** What the handler reads of the request. *)
Record info_request := {
  creds : Gate.credentials;
  query_url : option string     (* req.query.url *)
}.

(** The handler of GET /api/info; its reply is the value returned. *)
Definition info (sessions : Gate.registry) (api : resolver) (req : info_request)
  : M reply :=
  if negb (Gate.isAuthenticated (creds req) sessions) then
    ret (Refused 401 "Unauthorized")
  else
    match query_url req with
    | None => ret (Refused 400 "URL is required")
    | Some url =>
        if negb (Js.truthy url) then ret (Refused 400 "URL is required")
        else
          match VideoId.extractVideoId url with
          | None => ret (Refused 400 "Invalid YouTube URL")
          | Some videoId =>
              try_catch
                (let* result := rapidApiRequest api ("/video_details?id=" +:+ videoId) in
                 if truthy_scalar (error result) || negb (Js.truthy_opt (title result))
                 then ret (Refused 400
                             "Could not fetch video info. Please try a different video.")
                 else ret (Details (Js.opt_or (title result) "Unknown Title")
                                   (pick_author result)
                                   (pick_duration result)
                                   (pick_thumbnail result)))
                (fun _ => ret (Refused 500 "Failed to get video info"))
          end
    end.

End Info.

(** ** POST /api/convert of the yt-dlp variant (src/unnamed/part_001, first file) *)

Module YtDlpHandler.
Import Http.
Local Open Scope handler_scope.

Section Handler.

(** The libraries of the Cobalt variant, and the two tools: a run of
    yt-dlp with its arguments, which settles with its output, the ffmpeg
    chain from an input to an output, and [JSON.parse(infoOutput).title]
    ([None] when reading it throws). The tools do to the world whatever
    they do. *)
Variable isURL : string -> bool.
Variable hostname : string -> option string.
Variable sanitize : string -> string.
Variable execPromise : list string -> M string.
Variable toMp3 : string -> string -> M unit.
Variable parsed_title : string -> option (option string).

(** The handler; [isValidYouTubeUrl] is, word for word, that of the
    Cobalt variant. Both temp paths are assigned before the first call
    that can throw ([ensureTempDir] succeeds), so the [catch] block and
    the callback find them set. *)
Definition convert (now : Z) (rnd : string) (body_url : option string) : M reply :=
  match body_url with
  | None => respond (Json 400 [ ("error", JStr "URL is required") ])
  | Some url =>
      if negb (Js.truthy url) then
        respond (Json 400 [ ("error", JStr "URL is required") ])
      else if negb (Cobalt.isValidYouTubeUrl isURL hostname url) then
        respond (Json 400
          [ ("error", JStr "Invalid YouTube URL. Only YouTube links are supported.") ])
      else
        let baseFilename := Radix.toString 10 now +:+ "-" +:+ rnd in
        let tempVideoPath := baseFilename +:+ ".webm" in
        let tempAudioPath := baseFilename +:+ ".mp3" in
        try_catch
          (run execPromise [ url; "-o"; tempVideoPath; "-f"; "bestaudio";
                             "--no-playlist"; "--restrict-filenames"; "--no-warnings" ] then
           let* infoOutput := execPromise [ url; "--dump-single-json"; "--no-warnings" ] in
           match parsed_title infoOutput with
           | None => throw (Error "Unexpected token in JSON")
           | Some info_title =>
               let safeTitle := YtDlp.safeTitle sanitize info_title in
               run toMp3 tempVideoPath tempAudioPath then
               respond (Attachment tempAudioPath (safeTitle +:+ ".mp3") None)
           end)
          (fun error =>
             run unlink_quiet tempVideoPath then
             run unlink_quiet tempAudioPath then
             respond (Json 500
               [ ("error", JStr "Conversion failed. Please check the URL and try again.") ]))
  end.

End Handler.

(** The callback of [res.download], run once the transfer ended: both
    temp files are unlinked and, when the transfer failed ([err]) before
    any header was sent, the callback answers 500 itself. *)
Definition on_sent (tempVideoPath tempAudioPath : string)
    (err : option error) (headersSent : bool) : M unit :=
  run unlink_quiet tempVideoPath then
  run unlink_quiet tempAudioPath then
  match err with
  | Some _ =>
      if negb headersSent
      then run respond (Json 500 [ ("error", JStr "Download failed") ]) then ret tt
      else ret tt
  | None => ret tt
  end.

End YtDlpHandler.

(** ** Predicates and abbreviations the properties are stated with *)

Module Spec.
Import Js.

(** The character class, letter by letter. *)
Definition id_alphabet : string :=
  "abcdefghijklmnopqrstuvwxyzABCDEFGHIJKLMNOPQRSTUVWXYZ0123456789_-".

(** The registry's keys are pairwise distinct, as a [Map]'s are. *)
Definition well_formed (m : Gate.registry) : Prop := NoDup m.*1.



Import Http.

(** From [u], a request of each URL can be made and the upstream answers
    a 301 or 302 to each of [hops] in turn and a 200 at the last of
    them. *)
Fixpoint follows (net : network) (u : string) (hops : list string) : Prop :=
  match hops with
  | [] => exists r, protocol_get net u = Answer r /\ statusCode r = 200
  | v :: rest =>
      exists r, protocol_get net u = Answer r
                /\ (statusCode r = 301 \/ statusCode r = 302)
                /\ location r = Some v /\ v <> "" /\ follows net v rest
  end.

Definition sent (w : world) (e : event) : world :=
  {| temp := temp w; log := log w ++ [e]; slot := slot w |}.

Definition written (w : world) (mtime : Z) (file : string) (n : Z) : world :=
  {| temp := <[ file := {| Fs.mtimeMs := mtime; Fs.size := n; Fs.isDirectory := false |} ]> (temp w);
     log := log w; slot := slot w |}.

Definition gets (w : world) : list string :=
  omap (fun e => match e with HttpGet u => Some u | _ => None end) (log w).

Definition conversion_failed (details : string) : reply :=
  Json 500 [ ("error", JStr "Conversion failed. Please try again.");
             ("details", JStr details) ].

Definition no_link (details : string) : reply :=
  Json 400
    [ ("error", JStr "Could not get download link. The video might be restricted or unavailable.");
      ("details", JStr details) ].

Definition only_youtube : reply :=
  Json 400 [ ("error", JStr "Invalid YouTube URL. Only YouTube links are supported.") ].




(** What a run of a handler replied, did and left in the temp directory. *)
Definition reply_of {A} (x : option (outcome A * world)) : option (outcome A) :=
  fst <$> x.

Definition log_of {A} (x : option (outcome A * world)) : list event :=
  match x with Some (_, w) => log w | None => [] end.

Definition temp_of {A} (x : option (outcome A * world)) : gmap string Fs.Stats :=
  match x with Some (_, w) => temp w | None => ∅ end.

Import Fs.

(** What a sweep leaves of an entry [st] named [f]: it goes when it is
    listed, expired and a regular file. *)
Definition swept (now : Z) (files : list string) (f : string) (st : Stats) : bool :=
  bool_decide (f ∈ files) && expired now st && negb (isDirectory st).

(** A sweep from [d] to [d'] deletes exactly the expired entries: an
    entry is gone if and only if it is older than the threshold, an entry
    at or under the threshold is there with the stats it had, and no
    entry appears. *)
Definition deletes_exactly_expired (now : Z) (d d' : dir) : Prop :=
  (forall f st, d !! f = Some st ->
     (d' !! f = None <-> now - mtimeMs st > MAX_FILE_AGE_MS) /\
     (now - mtimeMs st <= MAX_FILE_AGE_MS -> d' !! f = Some st)) /\
  (forall f, d !! f = None -> d' !! f = None).

End Spec.

(** ** Sample inputs *)

Module Samples.
Import Js Http Spec.

(** A network given by a table of answers; any other URL fails to
    connect. *)
Definition table_network (t : list (string * response)) : network :=
  fun u =>
    match List.find (fun e => String.eqb (fst e) u) t with
    | Some e => Answer (snd e)
    | None => NetError "getaddrinfo ENOTFOUND"
    end.

Definition moved (next : string) : response :=
  {| statusCode := 302; location := Some next; contentLength := 0 |}.

Definition found (n : Z) : response :=
  {| statusCode := 200; location := None; contentLength := n |}.

(** Six redirects in a row, then the media. *)
Definition six_hops : network :=
  table_network
    [ ("https://cdn.example/0", moved "https://cdn.example/1");
      ("https://cdn.example/1", moved "https://cdn.example/2");
      ("https://cdn.example/2", moved "https://cdn.example/3");
      ("https://cdn.example/3", moved "https://cdn.example/4");
      ("https://cdn.example/4", moved "https://cdn.example/5");
      ("https://cdn.example/5", moved "https://cdn.example/6");
      ("https://cdn.example/6", found 4096) ].

(** A URL that redirects to itself. *)
Definition redirect_loop : network :=
  table_network [ ("https://cdn.example/self", moved "https://cdn.example/self") ].

Definition six_urls : list string :=
  [ "https://cdn.example/1"; "https://cdn.example/2"; "https://cdn.example/3";
    "https://cdn.example/4"; "https://cdn.example/5"; "https://cdn.example/6" ].

(** A media host that redirects to a path of its own. *)
Definition relative_hop : network :=
  table_network [ ("https://cdn.example/a.mp3", moved "/files/a.mp3");
                  ("/files/a.mp3", found 4096) ].

(** The file system stamps the file 2 ms after the request read the
    clock for its name, and the last chunk 950 ms after it. *)
Definition stamped : stamps := {| opened := 1700000000002; finished := 1700000000950 |}.


(** Stand-ins for the libraries, to run the handlers on sample inputs:
    a check of the scheme for [validator.isURL], the text between the
    scheme and the next slash for [new URL(url).hostname], and a filter
    for [sanitize] that drops the characters sanitize-filename treats as
    illegal (slash, backslash, question mark, angle brackets, colon, star,
    bar, double quote) and the control characters. *)
Definition web_url (u : string) : bool :=
  startsWith u "http://" || startsWith u "https://".

Fixpoint until_slash (s : string) : string :=
  match s with
  | EmptyString => EmptyString
  | String c s' => if Ascii.eqb c "/" then EmptyString else String c (until_slash s')
  end.

Definition host_of (u : string) : option string :=
  match strip_prefix "https://" u with
  | Some r => Some (until_slash r)
  | None =>
      match strip_prefix "http://" u with
      | Some r => Some (until_slash r)
      | None => None
      end
  end.

Definition is_illegal (c : ascii) : bool :=
  let n := nat_of_ascii c in
  (n <? 32)%nat || ((127 <=? n)%nat && (n <=? 159)%nat)
  || bool_decide (n ∈ [47; 92; 63; 60; 62; 58; 42; 124; 34]%nat).

Fixpoint drop_illegal (s : string) : string :=
  match s with
  | EmptyString => EmptyString
  | String c s' => if is_illegal c then drop_illegal s' else String c (drop_illegal s')
  end.

(** One session, and a request that presents it. *)
Definition members : Gate.registry := [ ("k3j9x1njchs", 100000000) ].

Definition member : Gate.credentials :=
  {| Gate.header_x_session_id := Some "k3j9x1njchs"; Gate.query_sessionId := None |}.

Definition request_for (u : string) : RapidApi.convert_request :=
  {| RapidApi.creds := member; RapidApi.query_url := Some u; RapidApi.query_quality := None |}.

(** The resolver finds a link. *)
Definition api_link : RapidApi.resolver :=
  fun _ => RapidApi.ApiJson
    {| RapidApi.link := Some "https://cdn.example/a.mp3"; RapidApi.url := None;
       RapidApi.downloadUrl := None; RapidApi.audio := None; RapidApi.formats := None;
       RapidApi.title := Some "Song"; RapidApi.error := None; RapidApi.message := None |}.

(** The resolver answers with an error of its own and no link. *)
Definition api_refusal : RapidApi.resolver :=
  fun _ => RapidApi.ApiJson
    {| RapidApi.link := None; RapidApi.url := None;
       RapidApi.downloadUrl := None; RapidApi.audio := None; RapidApi.formats := None;
       RapidApi.title := None;
       RapidApi.error := Some "You have exceeded the MONTHLY quota for Requests on your current plan, BASIC";
       RapidApi.message := None |}.

(** The media host answers 404, or cannot be reached. *)
Definition net_404 : network :=
  table_network
    [ ("https://cdn.example/a.mp3",
       {| statusCode := 404; location := None; contentLength := 0 |}) ].

Definition net_ok : network :=
  table_network [ ("https://cdn.example/a.mp3", found 4096) ].

Definition net_refused : network :=
  fun _ => NetError "connect ECONNREFUSED 10.0.0.7:443".

Definition cobalt_link : string -> Cobalt.cobalt_reply :=
  fun _ => Cobalt.CobaltJson
    {| Cobalt.status := Some "stream"; Cobalt.text := None;
       Cobalt.url := Some "https://cdn.example/a.mp3"; Cobalt.filename := Some "Song.mp3" |}.


Import Fs.

(** A directory with one file of 2000 seconds and one of 1000 seconds. *)
Definition two_files : dir :=
  <[ "old.mp3" := {| mtimeMs := 0; size := 7; isDirectory := false |} ]>
  (<[ "new.mp3" := {| mtimeMs := 1000000; size := 9; isDirectory := false |} ]> ∅).

(** An expired file listed after an entry that is gone by the time the
    sweep reaches it (its own request unlinked it), or after a
    subdirectory. *)
Definition after_gone : dir :=
  <[ "old.mp3" := {| mtimeMs := 0; size := 7; isDirectory := false |} ]> ∅.

Definition after_subdir : dir :=
  <[ "cache" := {| mtimeMs := 0; size := 0; isDirectory := true |} ]> after_gone.

(** A registry with one session of 100000 seconds and one of 10000. *)
Definition two_sessions : Gate.registry := [ ("stale", 0); ("fresh", 90000000) ].

End Samples.

(** ** Reading numbers back from text *)

Module Digits.

(** The value of a digit of [Radix.digits]: 0 to 9, then a to z. *)
Definition digit_value (c : ascii) : option Z :=
  let n := Z.of_nat (nat_of_ascii c) in
  if (48 <=? n) && (n <=? 57) then Some (n - 48)
  else if (97 <=? n) && (n <=? 122) then Some (n - 87)
  else None.

(** The number a string of digits writes in base [r], most significant
    digit first, on top of [acc]; [None] when a character is no digit of
    the base. *)
Fixpoint value_from (r : Z) (acc : Z) (s : string) : option Z :=
  match s with
  | EmptyString => Some acc
  | String c s' =>
      match digit_value c with
      | Some v => if v <? r then value_from r (acc * r + v) s' else None
      | None => None
      end
  end.

Definition value (r : Z) (s : string) : option Z := value_from r 0 s.

End Digits.

(** ** More abbreviations and sample worlds *)

Module MoreSpec.
Import Js Http Spec Samples.

(** A regular file of [n] bytes, last written at [mtime]. *)
Definition file_of (mtime n : Z) : Fs.Stats :=
  {| Fs.mtimeMs := mtime; Fs.size := n; Fs.isDirectory := false |}.

(** The directory after an unlink whose failure is dropped. *)
Definition unlinked (d : gmap string Fs.Stats) (file : string) : gmap string Fs.Stats :=
  match Fs.unlink d file with Fs.Ok d' => d' | Fs.Err _ => d end.

(** The events of a download to [dest]. *)
Definition transfer_event (dest : string) (e : event) : Prop :=
  e = OpenWrite dest \/ (exists v, e = HttpGet v) \/ e = Unlink dest.


(** The world after GET /api/convert streamed the sample conversion. *)
Definition streamed : world :=
  {| temp := <[ "1700000000000-x7k2q.mp3" := file_of 1700000000950 4096 ]> ∅;
     log := [ CallResolver "/download?id=dQw4w9WgXcQ&format=mp3&quality=128kbps";
              OpenWrite "1700000000000-x7k2q.mp3";
              HttpGet "https://cdn.example/a.mp3";
              Respond (Attachment "1700000000000-x7k2q.mp3" "Song.mp3" (Some 4096)) ];
     slot := None |}.









(** The fixed error replies of GET /api/info. *)
Definition info_refusals : list (Z * string) :=
  [ (401, "Unauthorized"); (400, "URL is required"); (400, "Invalid YouTube URL");
    (400, "Could not fetch video info. Please try a different video.");
    (500, "Failed to get video info") ].

(** A resolver that knows the sample video, and the world after it was
    asked. *)
Definition details_api : Info.resolver :=
  fun _ => Info.ApiJson
    {| Info.error := None; Info.title := Some "Song";
       Info.channel := Some {| Info.channel_name := Some "Artist" |};
       Info.author := None; Info.duration := None;
       Info.lengthSeconds := Some (Info.Str "213");
       Info.thumbnail := None;
       Info.thumbnails := Some [ {| Info.thumb_url := Some "https://i.ytimg.com/vi/dQw4w9WgXcQ/default.jpg" |} ] |}.

Definition asked_details : world :=
  {| temp := ∅; log := [ CallResolver "/video_details?id=dQw4w9WgXcQ" ]; slot := None |}.

Definition info_request_for (u : string) : Info.info_request :=
  {| Info.creds := member; Info.query_url := Some u |}.


(** The world after GET /api/convert met a 404 from the media host. *)
Definition orphaned : world :=
  {| temp := <[ "1700000000000-x7k2q.mp3" := file_of 1700000000002 0 ]> ∅;
     log := [ CallResolver "/download?id=dQw4w9WgXcQ&format=mp3&quality=128kbps";
              OpenWrite "1700000000000-x7k2q.mp3";
              HttpGet "https://cdn.example/a.mp3";
              Respond (conversion_failed "Download failed with status 404") ];
     slot := None |}.


End MoreSpec.

(** ** The resolver request of GET /api/convert *)

Module Paths.

(** The path [`/download?id=${videoId}&format=mp3&quality=${quality}kbps`]. *)
Definition download_path (videoId quality : string) : string :=
  "/download?id=" +:+ videoId +:+ "&format=mp3&quality=" +:+ quality +:+ "kbps".

(** [quality = '128'] unless the query gives one. *)
Definition quality_of (req : RapidApi.convert_request) : string :=
  match RapidApi.query_quality req with Some q => q | None => "128" end.

End Paths.

(** * Properties *)

(** ** Strings *)

Module JsFacts.
Import Js.

Lemma str_app_nil (s : string) : "" +:+ s = s.
Proof. reflexivity. Qed.

Lemma str_app_cons (c : ascii) (s t : string) : String c s +:+ t = String c (s +:+ t).
Proof. reflexivity. Qed.

Lemma str_app_nil_r (s : string) : s +:+ "" = s.
Proof. induction s as [|c s IH]; [reflexivity|]. rewrite str_app_cons. by f_equal. Qed.

Lemma str_app_assoc (s t u : string) : (s +:+ t) +:+ u = s +:+ (t +:+ u).
Proof.
  induction s as [|c s IH]; [reflexivity|].
  rewrite !str_app_cons. by f_equal.
Qed.

Lemma str_length_app (s t : string) :
  String.length (s +:+ t) = (String.length s + String.length t)%nat.
Proof.
  induction s as [|c s IH]; [reflexivity|].
  rewrite str_app_cons. simpl. by f_equal.
Qed.

Lemma chars_app (s t : string) : chars (s +:+ t) = chars s ++ chars t.
Proof.
  induction s as [|c s IH]; [reflexivity|].
  rewrite str_app_cons. unfold chars in *. simpl. by f_equal.
Qed.

Lemma length_chars (s : string) : length (chars s) = String.length s.
Proof. induction s as [|c s IH]; [reflexivity|]. unfold chars in *. simpl. by f_equal. Qed.

(** [strip_prefix] succeeds exactly on the strings that start with the
    prefix, and returns the rest. *)
Lemma strip_prefix_Some (p s r : string) :
  strip_prefix p s = Some r <-> s = p +:+ r.
Proof.
  revert s. induction p as [|a p IH]; intros s; simpl.
  - rewrite str_app_nil. split; congruence.
  - rewrite str_app_cons. destruct s as [|b s]; [split; discriminate|].
    destruct (Ascii.eqb_spec a b) as [->|Hne].
    + rewrite IH. split; [by intros ->|congruence].
    + split; [discriminate|]. intros [=]. congruence.
Qed.

Lemma strip_prefix_app (p r : string) : strip_prefix p (p +:+ r) = Some r.
Proof. by apply strip_prefix_Some. Qed.

Lemma length_take (n : nat) (s : string) :
  (String.length (take n s) <= n)%nat.
Proof.
  revert s. induction n as [|n IH]; intros [|c s]; simpl; try lia.
  specialize (IH s). lia.
Qed.

Lemma take_chars (n : nat) (s : string) : chars (take n s) = firstn n (chars s).
Proof.
  revert s. induction n as [|n IH]; intros [|c s]; try reflexivity.
  unfold chars in *. simpl. by rewrite IH.
Qed.

Lemma truthy_nonempty (s : string) : truthy s = true <-> s <> "".
Proof. destruct s; simpl; split; congruence. Qed.

Lemma or_else_nonempty (a b : string) : b <> "" -> or_else a b <> "".
Proof.
  intros Hb. unfold or_else. destruct (truthy a) eqn:Ha; [|done].
  by apply truthy_nonempty.
Qed.

End JsFacts.

(** ** Video-ID extraction *)

Module VideoIdFacts.
Import Js JsFacts VideoId Spec.

(** What the capture group takes is a prefix of the input, of the asked
    length, made of ID characters. *)
Lemma take_id_Some (n : nat) (s id : string) :
  take_id n s = Some id ->
  String.length id = n /\ Forall (fun c => is_id_char c = true) (chars id)
  /\ exists rest, s = id +:+ rest.
Proof.
  revert s id. induction n as [|n IH]; intros s id; simpl.
  - intros [= <-]. repeat split; [constructor|by exists s].
  - destruct s as [|c s]; [discriminate|].
    destruct (is_id_char c) eqn:Hc; [|discriminate].
    destruct (take_id n s) as [r|] eqn:Hr; [|discriminate].
    intros [= <-]. destruct (IH _ _ Hr) as (Hlen & Hall & rest & ->).
    repeat split.
    + simpl. by f_equal.
    + unfold chars in *. simpl. by constructor.
    + exists rest. by rewrite str_app_cons.
Qed.

Lemma take_id_app (id rest : string) :
  Forall (fun c => is_id_char c = true) (chars id) ->
  take_id (String.length id) (id +:+ rest) = Some id.
Proof.
  induction id as [|c id IH]; [reflexivity|].
  unfold chars. simpl. intros Hall. inversion Hall as [|? ? Hc Hrest]; subst.
  rewrite Hc, IH; done.
Qed.

Lemma is_id_take (id rest : string) : is_id id -> take_id 11 (id +:+ rest) = Some id.
Proof. intros [Hlen Hall]. rewrite <- Hlen. by apply take_id_app. Qed.

Lemma take_id_is_id (s id : string) : take_id 11 s = Some id -> is_id id.
Proof. intros H. apply take_id_Some in H as (? & ? & _). by split. Qed.

Local Arguments take_id : simpl never.

Lemma match_here_Some (ms : list string) (s id : string) :
  match_here ms s = Some id ->
  exists m post, m ∈ ms /\ s = m +:+ id +:+ post /\ is_id id.
Proof.
  induction ms as [|m ms IH]; simpl; [discriminate|].
  destruct (strip_prefix m s) as [rest|] eqn:Hm.
  - destruct (take_id 11 rest) as [id'|] eqn:Hid.
    + intros [= <-]. apply strip_prefix_Some in Hm as ->.
      pose proof (take_id_is_id _ _ Hid) as Hisid.
      apply take_id_Some in Hid as (_ & _ & post & ->).
      exists m, post. split; [by left|done].
    + intros H. destruct (IH H) as (m' & post & Hin & Hs & Hisid).
      exists m', post. split; [by right|done].
  - intros H. destruct (IH H) as (m' & post & Hin & Hs & Hisid).
    exists m', post. split; [by right|done].
Qed.

Lemma match_here_app (ms : list string) (m id post : string) :
  m ∈ ms -> is_id id -> is_Some (match_here ms (m +:+ id +:+ post)).
Proof.
  intros Hin Hid. induction ms as [|m' ms IH]; [by apply elem_of_nil in Hin|].
  simpl. destruct (strip_prefix m' (m +:+ id +:+ post)) as [rest|] eqn:Hm'.
  - destruct (take_id 11 rest) eqn:Hrest; [by eexists|].
    apply elem_of_cons in Hin as [->|Hin]; [|by apply IH].
    rewrite strip_prefix_app in Hm'. injection Hm' as <-.
    rewrite is_id_take in Hrest; done.
  - apply elem_of_cons in Hin as [->|Hin]; [|by apply IH].
    by rewrite strip_prefix_app in Hm'.
Qed.

Lemma search_unfold (s : string) :
  search s =
  match match_here markers s with
  | Some id => Some id
  | None => match s with String _ s' => search s' | EmptyString => None end
  end.
Proof. by destruct s. Qed.

Lemma search_Some (s id : string) :
  search s = Some id ->
  exists pre m post, m ∈ markers /\ s = pre +:+ m +:+ id +:+ post /\ is_id id.
Proof.
  induction s as [|c s IH]; rewrite search_unfold.
  - destruct (match_here markers "") eqn:Hm; [|discriminate].
    intros [= ->]. apply match_here_Some in Hm as (m & post & ? & ? & ?).
    by exists "", m, post.
  - destruct (match_here markers (String c s)) eqn:Hm.
    + intros [= ->]. apply match_here_Some in Hm as (m & post & ? & ? & ?).
      by exists "", m, post.
    + intros H. destruct (IH H) as (pre & m & post & ? & -> & ?).
      exists (String c pre), m, post. by rewrite str_app_cons.
Qed.

Lemma search_app (pre m id post : string) :
  m ∈ markers -> is_id id -> is_Some (search (pre +:+ m +:+ id +:+ post)).
Proof.
  intros Hin Hid. induction pre as [|c pre IH]; rewrite search_unfold.
  - rewrite str_app_nil. pose proof (match_here_app markers m id post Hin Hid) as [x Hx].
    rewrite Hx. by eexists.
  - rewrite str_app_cons.
    destruct (match_here markers (String c (pre +:+ m +:+ id +:+ post)));
      [by eexists|done].
Qed.

Lemma match_bare_Some (s id : string) :
  match_bare s = Some id <-> s = id /\ is_id s.
Proof.
  unfold match_bare. split.
  - destruct (take_id 11 s) as [id'|] eqn:Hid; [|discriminate].
    destruct (Nat.eqb_spec (String.length s) 11) as [Hlen|]; [|discriminate].
    intros [= <-]. pose proof (take_id_is_id _ _ Hid) as Hisid.
    apply take_id_Some in Hid as (Hl & _ & rest & ->).
    rewrite str_length_app, Hl in Hlen.
    destruct rest; [|simpl in Hlen; lia]. by rewrite str_app_nil_r.
  - intros [<- Hid]. pose proof (is_id_take s "" Hid) as Ht.
    rewrite str_app_nil_r in Ht. rewrite Ht.
    destruct Hid as [-> _]. done.
Qed.

Lemma is_id_char_alphabet (c : ascii) :
  is_id_char c = bool_decide (c ∈ chars id_alphabet).
Proof. destruct c as [[] [] [] [] [] [] [] []]; vm_compute; reflexivity. Qed.

Example extractVideoId_forms :
  extractVideoId "https://www.youtube.com/watch?v=dQw4w9WgXcQ" = Some "dQw4w9WgXcQ"
  /\ extractVideoId "https://youtu.be/dQw4w9WgXcQ" = Some "dQw4w9WgXcQ"
  /\ extractVideoId "https://www.youtube.com/embed/dQw4w9WgXcQ" = Some "dQw4w9WgXcQ"
  /\ extractVideoId "https://www.youtube.com/v/dQw4w9WgXcQ" = Some "dQw4w9WgXcQ"
  /\ extractVideoId "dQw4w9WgXcQ" = Some "dQw4w9WgXcQ"
  /\ extractVideoId "not-a-url" = None
  /\ extractVideoId "xxdQw4w9WgXcQyy" = None.
Proof. repeat split. Qed.

Lemma extractVideoId_Some (url id : string) :
  extractVideoId url = Some id ->
  is_id id /\
  ((exists pre m post, m ∈ markers /\ url = pre +:+ m +:+ id +:+ post) \/ url = id).
Proof.
  unfold extractVideoId. destruct (search url) as [id'|] eqn:Hs.
  - intros [= <-]. apply search_Some in Hs as (pre & m & post & ? & ? & ?).
    split; [done|]. left. by exists pre, m, post.
  - intros [-> Hid]%match_bare_Some. split; [done|by right].
Qed.

(** C10: whenever extraction returns an ID, the ID has exactly 11
    characters, each of them an ASCII letter, a digit, an underscore or a
    hyphen. *)
Theorem extractVideoId_id_shape (url id : string) :
  extractVideoId url = Some id ->
  String.length id = 11%nat /\ Forall (fun c => c ∈ chars id_alphabet) (chars id).
Proof.
  intros [[Hlen Hall] _]%extractVideoId_Some. split; [done|].
  eapply Forall_impl; [exact Hall|]. intros c Hc. simpl in Hc.
  rewrite is_id_char_alphabet in Hc. by apply bool_decide_eq_true in Hc.
Qed.

Lemma extractVideoId_id_shape_witness :
  String.length "dQw4w9WgXcQ" = 11%nat
  /\ Forall (fun c => c ∈ chars id_alphabet) (chars "dQw4w9WgXcQ").
Proof.
  apply (extractVideoId_id_shape "https://www.youtube.com/watch?v=dQw4w9WgXcQ&t=42").
  reflexivity.
Defined.

(** C5, against the claim: a string that is no URL and no bare ID, with
    text before the marker and ID characters after the eleventh, still
    yields an ID. *)
Lemma extractVideoId_embedded_accepted :
  let s := "see youtu.be/dQw4w9WgXcQ-and-more" in
  startsWith s "http" = false /\ startsWith s "youtu" = false
  /\ extractVideoId s = Some "dQw4w9WgXcQ".
Proof. repeat split. Qed.

(** C5, as amended: extraction returns an ID exactly when the string
    contains, at any position, one of the four markers followed by 11 ID
    characters, or when the whole string is 11 ID characters; only the
    bare form is anchored. The ID returned is 11 ID characters that
    follow a marker in the string, or the whole string. *)
Theorem extractVideoId_accepts (url : string) :
  (is_Some (extractVideoId url) <->
   (exists pre m id post,
       m ∈ markers /\ is_id id /\ url = pre +:+ m +:+ id +:+ post)
   \/ is_id url)
  /\ (forall id, extractVideoId url = Some id ->
        is_id id /\
        ((exists pre m post, m ∈ markers /\ url = pre +:+ m +:+ id +:+ post) \/ url = id)).
Proof.
  split; [|apply extractVideoId_Some]. split.
  - intros [id Hid]. apply extractVideoId_Some in Hid as [Hisid [(pre & m & post & ? & ?)| ->]].
    + left. by exists pre, m, id, post.
    + by right.
  - unfold extractVideoId. intros [(pre & m & id & post & Hin & Hid & ->)|Hid].
    + destruct (search_app pre m id post Hin Hid) as [x ->]. by eexists.
    + destruct (search url); [by eexists|].
      exists url. by apply match_bare_Some.
Qed.

End VideoIdFacts.

(** ** The sweep of the temp directory *)

Module SweepFacts.
Import Fs Spec Samples.

Lemma expired_iff (now : Z) (st : Stats) :
  expired now st = true <-> now - mtimeMs st > MAX_FILE_AGE_MS.
Proof. unfold expired. rewrite Z.gtb_lt. lia. Qed.

Lemma expired_false_iff (now : Z) (st : Stats) :
  expired now st = false <-> now - mtimeMs st <= MAX_FILE_AGE_MS.
Proof. unfold expired. rewrite Z.gtb_ltb, Z.ltb_ge. lia. Qed.

Lemma stat_Ok (d : dir) (f : string) (st : Stats) : stat d f = Ok st <-> d !! f = Some st.
Proof. unfold stat. destruct (d !! f); split; congruence. Qed.

Lemma unlink_Ok (d d' : dir) (f : string) :
  unlink d f = Ok d' <->
  exists st, d !! f = Some st /\ isDirectory st = false /\ d' = delete f d.
Proof.
  unfold unlink. destruct (d !! f) as [st|] eqn:Hf.
  - destruct (isDirectory st) eqn:Hd; split.
    + discriminate.
    + intros (st' & [= <-] & ? & _). congruence.
    + intros [= <-]. by exists st.
    + intros (st' & _ & _ & ->). done.
  - split; [discriminate|]. by intros (? & ? & _).
Qed.

(** The per-entry guarded sweep, entry by entry, on any listing and any
    directory. *)
Lemma loopB_lookup (now : Z) (files : list string) (d : dir) (f : string) :
  (SweepB.loop now files d).1 !! f =
  match d !! f with
  | Some st => if swept now files f st then None else Some st
  | None => None
  end.
Proof.
  revert d. induction files as [|file rest IH]; intros d; simpl.
  - by destruct (d !! f).
  - assert (Hrest : forall st, file <> f ->
              swept now (file :: rest) f st = swept now rest f st).
    { intros st Hne. unfold swept. f_equal. f_equal.
      apply bool_decide_ext. rewrite elem_of_cons.
      split; [intros [Heq|Hin]; [by symmetry in Heq|done]|by right]. }
    unfold stat. destruct (d !! file) as [stats|] eqn:Hfile.
    + destruct (expired now stats) eqn:Hexp.
      * unfold unlink. rewrite Hfile. destruct (isDirectory stats) eqn:Hdir.
        -- rewrite IH. destruct (d !! f) as [st|] eqn:Hf; [|done].
           destruct (decide (file = f)) as [->|Hne]; [|by rewrite Hrest].
           assert (st = stats) as -> by congruence.
           unfold swept. by rewrite Hdir, !andb_false_r.
        -- destruct (SweepB.loop now rest (delete file d)) as [d'' out] eqn:Hloop.
           simpl. change d'' with (d'', out).1. rewrite <- Hloop, IH.
           destruct (decide (file = f)) as [->|Hne].
           ++ rewrite lookup_delete_eq, Hfile. unfold swept.
              rewrite bool_decide_eq_true_2 by left. by rewrite Hexp, Hdir.
           ++ rewrite lookup_delete_ne by done.
              destruct (d !! f); [by rewrite Hrest|done].
      * rewrite IH. destruct (d !! f) as [st|] eqn:Hf; [|done].
        destruct (decide (file = f)) as [->|Hne]; [|by rewrite Hrest].
        assert (st = stats) as -> by congruence.
        unfold swept. by rewrite Hexp, !andb_false_r.
    + rewrite IH. destruct (d !! f) as [st|] eqn:Hf; [|done].
      destruct (decide (file = f)) as [->|Hne]; [congruence|by rewrite Hrest].
Qed.

(** On a listing without repetition whose entries are all regular files
    of the directory, no [await] of the single-[try] sweep throws, and
    both sweeps leave the same directory. *)
Lemma loopA_loopB (now : Z) (files : list string) (d : dir) :
  NoDup files ->
  (forall f, f ∈ files -> exists st, d !! f = Some st /\ isDirectory st = false) ->
  SweepA.loop now files d = (None, (SweepB.loop now files d).1).
Proof.
  revert d. induction files as [|file rest IH]; intros d Hnd Hreg; [done|].
  apply NoDup_cons in Hnd as [Hnotin Hnd]. simpl.
  destruct (Hreg file) as (stats & Hfile & Hdir); [by left|].
  unfold stat, unlink. rewrite Hfile, Hdir.
  destruct (expired now stats).
  - destruct (SweepB.loop now rest (delete file d)) as [d'' out] eqn:Hloop.
    simpl. change d'' with (d'', out).1. rewrite <- Hloop. apply IH; [done|].
    intros f Hf. destruct (Hreg f) as (st & ? & ?); [by right|].
    exists st. split; [|done]. rewrite lookup_delete_ne; [done|].
    intros ->. done.
  - apply IH; [done|]. intros f Hf. apply Hreg. by right.
Qed.

(** The single-[try] sweep, entry by entry, on any listing and any
    directory: an entry is as it was, or it was a listed regular file,
    expired, and is gone. *)
Lemma loopA_lookup (now : Z) (files : list string) (d : dir) (f : string) :
  (SweepA.loop now files d).2 !! f = d !! f
  \/ (exists st, d !! f = Some st /\ swept now files f st = true
                 /\ (SweepA.loop now files d).2 !! f = None).
Proof.
  revert d. induction files as [|file rest IH]; intros d; simpl; [by left|].
  assert (Hmono : forall st, swept now rest f st = true ->
                             swept now (file :: rest) f st = true).
  { intros st. unfold swept. rewrite !andb_true_iff, !bool_decide_eq_true.
    intros [[? ?] ?]. repeat split; [by right|done..]. }
  unfold stat. destruct (d !! file) as [stats|] eqn:Hfile; [|by left].
  destruct (expired now stats) eqn:Hexp.
  - unfold unlink. rewrite Hfile. destruct (isDirectory stats) eqn:Hdir; [by left|].
    destruct (IH (delete file d)) as [Heq|(st & Hst & Hsw & Hgone)].
    + destruct (decide (file = f)) as [->|Hne].
      * right. exists stats. rewrite Heq, lookup_delete_eq. split; [done|].
        split; [|done]. unfold swept.
        rewrite bool_decide_eq_true_2 by left. by rewrite Hexp, Hdir.
      * left. by rewrite Heq, lookup_delete_ne.
    + right. exists st. apply lookup_delete_Some in Hst as [_ Hst]. auto.
  - destruct (IH d) as [Heq|(st & Hst & Hsw & Hgone)]; [by left|].
    right. exists st. auto.
Qed.

(** With or without failures, on any listing: neither sweep touches an
    entry at or under the threshold, and neither adds an entry. *)
Lemma sweep_keeps_unexpired (now : Z) (files : list string) (d : dir)
    (f : string) (st : Stats) :
  d !! f = Some st -> now - mtimeMs st <= MAX_FILE_AGE_MS ->
  (SweepA.cleanupOldFiles now files d).1 !! f = Some st
  /\ (SweepB.cleanupOldFiles now files d).1 !! f = Some st.
Proof.
  intros Hf Hyoung%expired_false_iff. split.
  - assert ((SweepA.cleanupOldFiles now files d).1 = (SweepA.loop now files d).2) as ->.
    { unfold SweepA.cleanupOldFiles. by destruct (SweepA.loop now files d) as [[e|] d']. }
    destruct (loopA_lookup now files d f) as [->|(st' & Hst' & Hsw & _)]; [done|].
    assert (st' = st) as -> by congruence.
    unfold swept in Hsw. rewrite Hyoung, andb_false_r in Hsw. done.
  - unfold SweepB.cleanupOldFiles. rewrite loopB_lookup, Hf.
    unfold swept. by rewrite Hyoung, andb_false_r.
Qed.

Lemma listing_NoDup (files : list string) (d : dir) : is_listing files d -> NoDup files.
Proof. intros ->. apply NoDup_fst_map_to_list. Qed.

Lemma listing_elem_of (files : list string) (d : dir) (f : string) :
  is_listing files d -> f ∈ files <-> is_Some (d !! f).
Proof.
  intros ->. rewrite list_elem_of_fmap. split.
  - intros [[f' st] [-> Hin]]. apply elem_of_map_to_list in Hin. by eexists.
  - intros [st Hst]. exists (f, st). split; [done|]. by apply elem_of_map_to_list.
Qed.

Lemma loopB_deletes_exactly_expired (now : Z) (files : list string) (d : dir) :
  is_listing files d ->
  map_Forall (fun _ st => isDirectory st = false) d ->
  deletes_exactly_expired now d (SweepB.loop now files d).1.
Proof.
  intros Hlist Hreg. split.
  - intros f st Hf. rewrite loopB_lookup, Hf. unfold swept.
    rewrite bool_decide_eq_true_2 by (by apply (listing_elem_of files d)).
    rewrite (Hreg f st Hf). simpl. rewrite andb_true_r.
    destruct (expired now st) eqn:Hexp.
    + apply expired_iff in Hexp. split; [done|lia].
    + apply expired_false_iff in Hexp. split; [|done]. split; [done|lia].
  - intros f Hf. by rewrite loopB_lookup, Hf.
Qed.

(** When no call can fail, the listing being the directory's and the
    directory holding regular files only, both sweeps delete a file if
    and only if [now - mtime] exceeds 30 minutes, and leave every other
    file as it was. *)
Lemma sweep_deletes_exactly_expired (now : Z) (files : list string) (d : dir) :
  is_listing files d ->
  map_Forall (fun _ st => isDirectory st = false) d ->
  deletes_exactly_expired now d (SweepA.cleanupOldFiles now files d).1
  /\ deletes_exactly_expired now d (SweepB.cleanupOldFiles now files d).1.
Proof.
  intros Hlist Hreg.
  pose proof (loopB_deletes_exactly_expired now files d Hlist Hreg) as HB.
  split; [|done]. unfold SweepA.cleanupOldFiles.
  rewrite loopA_loopB; [done|by eapply listing_NoDup|].
  intros f [st Hst]%(listing_elem_of files d); [|done].
  exists st. split; [done|]. by apply (Hreg f).
Qed.

Lemma sweep_deletes_exactly_expired_witness :
  deletes_exactly_expired 2000000 two_files
    (SweepA.cleanupOldFiles 2000000 (map_to_list two_files).*1 two_files).1
  /\ deletes_exactly_expired 2000000 two_files
    (SweepB.cleanupOldFiles 2000000 (map_to_list two_files).*1 two_files).1.
Proof.
  apply (sweep_deletes_exactly_expired 2000000 (map_to_list two_files).*1 two_files).
  - unfold is_listing. reflexivity.
  - apply map_Forall_insert_2; [reflexivity|].
    apply map_Forall_insert_2; [reflexivity|]. apply map_Forall_empty.
Defined.

Example sweep_two_files :
  (SweepB.cleanupOldFiles 2000000 ["old.mp3"; "new.mp3"] two_files).1 !! "old.mp3" = None
  /\ (SweepB.cleanupOldFiles 2000000 ["old.mp3"; "new.mp3"] two_files).1 !! "new.mp3"
     = Some {| mtimeMs := 1000000; size := 9; isDirectory := false |}
  /\ (SweepA.cleanupOldFiles 2000000 ["old.mp3"; "new.mp3"] two_files).1 !! "old.mp3" = None.
Proof. vm_compute. done. Qed.

(** The per-entry guarded sweep goes on past a failure: whatever else is
    listed, every listed regular file that is expired is deleted. *)
Lemma sweepB_continues (now : Z) (files : list string) (d : dir) (f : string) (st : Stats) :
  f ∈ files -> d !! f = Some st -> isDirectory st = false ->
  now - mtimeMs st > MAX_FILE_AGE_MS ->
  (SweepB.cleanupOldFiles now files d).1 !! f = None.
Proof.
  intros Hin Hf Hdir Hexp%expired_iff. unfold SweepB.cleanupOldFiles.
  rewrite loopB_lookup, Hf. unfold swept.
  by rewrite bool_decide_eq_true_2, Hexp, Hdir.
Qed.

Lemma sweepB_continues_witness :
  (SweepB.cleanupOldFiles 2000000 ["cache"; "gone.mp3"; "old.mp3"] after_subdir).1
    !! "old.mp3" = None.
Proof.
  apply (sweepB_continues 2000000 ["cache"; "gone.mp3"; "old.mp3"] after_subdir "old.mp3"
           {| mtimeMs := 0; size := 7; isDirectory := false |}).
  - apply (bool_decide_unpack _). vm_compute. exact I.
  - vm_compute. reflexivity.
  - reflexivity.
  - vm_compute. reflexivity.
Defined.

(** The sweep of src/server.js deletes nothing when the entry listed
    first fails. *)
Lemma sweepA_fails_at_once (now : Z) (first : string) (rest : list string) (d : dir) :
  (d !! first = None
   \/ exists st0, d !! first = Some st0 /\ now - mtimeMs st0 > MAX_FILE_AGE_MS
                  /\ isDirectory st0 = true) ->
  exists e, SweepA.cleanupOldFiles now (first :: rest) d = (d, [CleanupError e]).
Proof.
  unfold SweepA.cleanupOldFiles. simpl. unfold stat, unlink.
  intros [->|(st0 & -> & Hexp%expired_iff & Hdir)]; [by eexists|].
  rewrite Hexp, Hdir. by eexists.
Qed.

(** C2, on the sweep of src/server.js: when the entry listed first is
    gone by the time the sweep examines it, or is an expired
    subdirectory, the sweep ends there and deletes nothing, so that a
    regular file of the directory older than 30 minutes survives it. The
    per-entry guarded sweep of src/unnamed/part_001 deletes that file, on
    the same listing and directory. *)
Theorem sweepA_spares_expired_file (now : Z) (first : string) (rest : list string)
    (d : dir) (f : string) (st : Stats) :
  (d !! first = None
   \/ exists st0, d !! first = Some st0 /\ now - mtimeMs st0 > MAX_FILE_AGE_MS
                  /\ isDirectory st0 = true) ->
  f ∈ rest -> d !! f = Some st -> isDirectory st = false ->
  now - mtimeMs st > MAX_FILE_AGE_MS ->
  (SweepA.cleanupOldFiles now (first :: rest) d).1 = d
  /\ (SweepA.cleanupOldFiles now (first :: rest) d).1 !! f = Some st
  /\ (SweepB.cleanupOldFiles now (first :: rest) d).1 !! f = None.
Proof.
  intros Hfirst Hin Hf Hdir Hexp.
  destruct (sweepA_fails_at_once now first rest d Hfirst) as [e ->].
  split; [done|]. split; [done|].
  unfold SweepB.cleanupOldFiles. rewrite loopB_lookup, Hf. unfold swept.
  apply expired_iff in Hexp.
  by rewrite bool_decide_eq_true_2, Hexp, Hdir by (by right).
Qed.

Lemma sweepA_spares_expired_file_witness :
  (SweepA.cleanupOldFiles 2000000 ["1700000000000-x7k2q.mp3"; "old.mp3"] after_gone).1
  = after_gone
  /\ (SweepA.cleanupOldFiles 2000000 ["1700000000000-x7k2q.mp3"; "old.mp3"] after_gone).1
       !! "old.mp3" = Some {| mtimeMs := 0; size := 7; isDirectory := false |}
  /\ (SweepB.cleanupOldFiles 2000000 ["1700000000000-x7k2q.mp3"; "old.mp3"] after_gone).1
       !! "old.mp3" = None.
Proof.
  apply (sweepA_spares_expired_file 2000000 "1700000000000-x7k2q.mp3" ["old.mp3"] after_gone
           "old.mp3" {| mtimeMs := 0; size := 7; isDirectory := false |}).
  - left. vm_compute. reflexivity.
  - apply (bool_decide_unpack _). vm_compute. exact I.
  - vm_compute. reflexivity.
  - reflexivity.
  - vm_compute. reflexivity.
Defined.

(** C3, on the sweep of src/server.js: the first failing [await] leaves
    the loop, and the expired file listed after it stays. *)
Theorem sweepA_stops_at_first_failure :
  SweepA.cleanupOldFiles 2000000 ["gone.mp3"; "old.mp3"] after_gone
    = (after_gone, [CleanupError ENOENT])
  /\ SweepA.cleanupOldFiles 2000000 ["cache"; "old.mp3"] after_subdir
    = (after_subdir, [CleanupError EISDIR])
  /\ after_gone !! "old.mp3" = Some {| mtimeMs := 0; size := 7; isDirectory := false |}
  /\ after_subdir !! "old.mp3" = Some {| mtimeMs := 0; size := 7; isDirectory := false |}
  /\ (SweepB.cleanupOldFiles 2000000 ["gone.mp3"; "old.mp3"] after_gone).1 !! "old.mp3" = None
  /\ (SweepB.cleanupOldFiles 2000000 ["cache"; "old.mp3"] after_subdir).1 !! "old.mp3" = None.
Proof. repeat split; vm_compute; reflexivity. Qed.

End SweepFacts.

(** ** The access gate *)

Module GateFacts.
Import Js JsFacts Gate Spec Samples.

Lemma render_nonempty (fuel : nat) (r n : Z) (acc : string) :
  Radix.render fuel r n acc <> "".
Proof.
  revert n acc. induction fuel as [|fuel IH]; intros n acc; simpl; [done|].
  destruct (n / r =? 0); [done|apply IH].
Qed.

Lemma toString_nonempty (r n : Z) : Radix.toString r n <> "".
Proof.
  unfold Radix.toString. destruct (n <? 0); [done|apply render_nonempty].
Qed.

Lemma app_nonempty_r (s t : string) : t <> "" -> s +:+ t <> "".
Proof. destruct s; [by rewrite str_app_nil|by rewrite str_app_cons]. Qed.

(** A session id is never the empty string, so it is truthy. *)
Lemma generateSessionId_truthy (rnd : string) (now : Z) :
  truthy (generateSessionId rnd now) = true.
Proof.
  apply truthy_nonempty, app_nonempty_r, toString_nonempty.
Qed.

Lemma has_get (m : registry) (k : string) :
  has m k = match get m k with Some _ => true | None => false end.
Proof.
  induction m as [|[k' v] m IH]; simpl; [done|].
  by destruct (String.eqb k' k).
Qed.

Lemma get_None (m : registry) (k : string) : k ∉ m.*1 -> get m k = None.
Proof.
  induction m as [|[k' v] m IH]; simpl; [done|].
  intros Hnotin. apply not_elem_of_cons in Hnotin as [Hne Hnotin].
  destruct (String.eqb_spec k' k); [congruence|by apply IH].
Qed.




Lemma keys_set (m : registry) (k : string) (v : Z) :
  (set m k v).*1 = if has m k then m.*1 else m.*1 ++ [k].
Proof.
  induction m as [|[k0 v0] m IH]; simpl; [done|].
  destruct (String.eqb_spec k0 k) as [->|Hne]; simpl; [done|].
  destruct (has m k); f_equal; exact IH.
Qed.

Lemma has_elem_of (m : registry) (k : string) : has m k = true <-> k ∈ m.*1.
Proof.
  induction m as [|[k0 v0] m IH]; simpl.
  - split; [done|]. by intros ?%elem_of_nil.
  - rewrite elem_of_cons. destruct (String.eqb_spec k0 k) as [->|Hne].
    + split; [by left|done].
    + rewrite IH. split; [by right|]. intros [?|?]; [congruence|done].
Qed.

Lemma set_well_formed (m : registry) (k : string) (v : Z) :
  well_formed m -> well_formed (set m k v).
Proof.
  unfold well_formed. intros Hnd. rewrite keys_set.
  destruct (has m k) eqn:Hk; [done|].
  apply NoDup_app. split; [done|]. split; [|apply NoDup_singleton].
  intros x Hx ->%list_elem_of_singleton.
  apply has_elem_of in Hx. congruence.
Qed.

Lemma elem_of_evict_any (clock : nat -> Z) (i : nat) (m : registry) (k : string) (c : Z) :
  (k, c) ∈ evict clock i m -> (k, c) ∈ m.
Proof.
  revert i. induction m as [|[k0 c0] m IH]; intros i; simpl; [done|].
  destruct (clock i - c0 >? SESSION_MAX_AGE_MS).
  - intros Hin. right. by eapply IH.
  - intros [[= -> ->]|Hin]%elem_of_cons; [by left|right; by eapply IH].
Qed.

Lemma length_evict (clock : nat -> Z) (i : nat) (m : registry) :
  (length (evict clock i m) <= length m)%nat.
Proof.
  revert i. induction m as [|[k0 c0] m IH]; intros i; simpl; [done|].
  specialize (IH (S i)). destruct (clock i - c0 >? SESSION_MAX_AGE_MS); simpl; lia.
Qed.

Lemma evict_well_formed_any (clock : nat -> Z) (i : nat) (m : registry) :
  well_formed m -> well_formed (evict clock i m).
Proof.
  unfold well_formed. revert i. induction m as [|[k c] m IH]; intros i; simpl; [done|].
  intros [Hnotin Hnd]%NoDup_cons.
  destruct (clock i - c >? SESSION_MAX_AGE_MS); [by apply IH|].
  simpl. apply NoDup_cons. split; [|by apply IH].
  intros [[k' c'] [-> Hin]]%list_elem_of_fmap. apply Hnotin.
  apply list_elem_of_fmap. exists (k', c'). split; [done|]. by eapply elem_of_evict_any.
Qed.

Lemma elem_of_set (m : registry) (k k' : string) (v c : Z) :
  (k', c) ∈ set m k v -> (k', c) ∈ m \/ (k' = k /\ c = v).
Proof.
  induction m as [|[k0 v0] m IH]; simpl.
  - intros [= -> ->]%list_elem_of_singleton. by right.
  - destruct (String.eqb_spec k0 k) as [->|Hne].
    + intros [[= -> ->]|Hin]%elem_of_cons; [by right|]. left. by right.
    + intros [[= -> ->]|Hin]%elem_of_cons; [left; by left|].
      destruct (IH Hin) as [?|?]; [left; by right|by right].
Qed.

Lemma length_set (m : registry) (k : string) (v : Z) :
  (length (set m k v) <= length m + 1)%nat.
Proof.
  induction m as [|[k0 v0] m IH]; simpl; [lia|].
  destruct (String.eqb k0 k); simpl; lia.
Qed.







(** Two sign-ins at a clock that stands still. *)
Example auth_two_sessions :
  auth "secret" (Some "secret") "k3j9x" (fun _ => 100000000) two_sessions
  = (Granted "k3j9x1njchs", [ ("fresh", 90000000); ("k3j9x1njchs", 100000000) ])
  /\ auth "secret" (Some "guess") "k3j9x" (fun _ => 100000000) two_sessions
  = (Denied, two_sessions).
Proof. vm_compute. done. Qed.

Example toString_samples :
  Radix.toString 36 1700000000000 = "loyw3v28"
  /\ Radix.toString 10 1700000000000 = "1700000000000"
  /\ Radix.toString 36 0 = "0" /\ Radix.toString 36 35 = "z"
  /\ Radix.toString 36 36 = "10" /\ Radix.toString 10 404 = "404".
Proof. repeat split; vm_compute; reflexivity. Qed.

End GateFacts.

(** ** Following redirects *)

Module DownloadFacts.
Import Js JsFacts Http Spec Samples.
Local Open Scope handler_scope.

Lemma makeRequest_redirect (fuel : nat) (net : network) (t : stamps)
    (dest u v : string) (r : response) (b : bool) (w : world) :
  protocol_get net u = Answer r -> (statusCode r = 301 \/ statusCode r = 302) ->
  location r = Some v -> v <> "" ->
  RapidApi.makeRequest (S fuel) net t dest b u w
  = RapidApi.makeRequest fuel net t dest true v (sent w (HttpGet u)).
Proof.
  intros Hnet Hst Hloc Hv. simpl. rewrite Hnet. unfold bind at 1, emit at 1. simpl.
  unfold RapidApi.redirect_target. rewrite Hloc.
  apply truthy_nonempty in Hv. rewrite Hv.
  by destruct Hst as [-> | ->].
Qed.

Lemma makeRequest_ok (fuel : nat) (net : network) (t : stamps)
    (dest u : string) (r : response) (b : bool) (w : world) :
  protocol_get net u = Answer r -> statusCode r = 200 ->
  RapidApi.makeRequest (S fuel) net t dest b u w
  = Some (Return tt, written (sent w (HttpGet u)) (finished t) dest (contentLength r)).
Proof.
  intros Hnet Hst. simpl. rewrite Hnet. unfold bind at 1, emit at 1. simpl.
  unfold RapidApi.redirect_target. by rewrite Hst.
Qed.

Lemma makeRequest_follows (net : network) (t : stamps) (dest : string)
    (hops : list string) (u : string) (b : bool) (w : world) (fuel : nat) :
  follows net u hops -> (length hops < fuel)%nat ->
  exists w', RapidApi.makeRequest fuel net t dest b u w = Some (Return tt, w')
             /\ log w' = log w ++ map HttpGet (u :: hops).
Proof.
  revert u b w fuel. induction hops as [|v rest IH]; intros u b w fuel Hf Hfuel.
  - destruct Hf as (r & Hnet & Hst). destruct fuel as [|fuel]; [simpl in Hfuel; lia|].
    rewrite (makeRequest_ok _ _ _ _ _ r) by done. by eexists.
  - destruct Hf as (r & Hnet & Hst & Hloc & Hv & Hrest).
    destruct fuel as [|fuel]; [simpl in Hfuel; lia|].
    rewrite (makeRequest_redirect _ _ _ _ _ v r) by done.
    destruct (IH v true (sent w (HttpGet u)) fuel Hrest) as (w' & -> & Hlog);
      [simpl in Hfuel; lia|].
    exists w'. split; [done|]. rewrite Hlog. simpl. by rewrite <- List.app_assoc.
Qed.

Lemma cobalt_downloadFile_follows (net : network) (t : stamps) (dest : string)
    (hops : list string) (u : string) (w : world) (fuel : nat) :
  follows net u hops -> (length hops < fuel)%nat ->
  exists w', Cobalt.downloadFile fuel net t (Some u) dest w = Some (Return tt, w')
             /\ log w' = log w ++ map HttpGet (u :: hops) ++ [OpenWrite dest].
Proof.
  revert u w fuel. induction hops as [|v rest IH]; intros u w fuel Hf Hfuel.
  - destruct Hf as (r & Hnet & Hst). destruct fuel as [|fuel]; [simpl in Hfuel; lia|].
    simpl. rewrite Hnet. unfold bind at 1, emit at 1. simpl. rewrite Hst. simpl.
    eexists. split; [reflexivity|]. simpl. by rewrite <- List.app_assoc.
  - destruct Hf as (r & Hnet & Hst & Hloc & Hv & Hrest).
    destruct fuel as [|fuel]; [simpl in Hfuel; lia|].
    simpl. rewrite Hnet. unfold bind at 1, emit at 1. simpl. rewrite Hloc.
    destruct (IH v (sent w (HttpGet u)) fuel Hrest) as (w' & Hw' & Hlog);
      [simpl in Hfuel; lia|].
    exists w'. split.
    + destruct Hst as [-> | ->]; exact Hw'.
    + rewrite Hlog. simpl. by rewrite <- List.app_assoc.
Qed.

(** The counting [makeRequest] of src/Dockerfile stops at the request
    that would follow a sixth redirect: from a count [c], on a chain that
    would take the count past five, it rejects having requested the URLs
    up to the one that answered the redirect number [6 - c]. *)
Lemma mp36_makeRequest_refuses (net : network) (t : stamps) (dest : string)
    (hops : list string) (u : string) (b : bool) (c : Z) (w : world) (fuel : nat) :
  follows net u hops -> 5 < c + Z.of_nat (length hops) -> (length hops < fuel)%nat ->
  exists w', Mp36.makeRequest fuel net t dest b u c w
             = Some (Throw (Error "Too many redirects"), w')
             /\ log w' = log w ++ map HttpGet (firstn (Z.to_nat (6 - c)) (u :: hops))
             /\ temp w' = temp w.
Proof.
  revert u b c w fuel. induction hops as [|v rest IH]; intros u b c w fuel Hf Hc Hfuel;
    (destruct fuel as [|fuel]; [simpl in Hfuel; lia|]); simpl Mp36.makeRequest.
  - simpl in Hc. rewrite (proj2 (Z.gtb_lt c 5)) by lia.
    exists w. split; [done|]. replace (Z.to_nat (6 - c)) with 0%nat by lia.
    by rewrite List.app_nil_r.
  - destruct (Z.gtb_spec c 5) as [Hover|Hunder].
    + exists w. split; [done|]. replace (Z.to_nat (6 - c)) with 0%nat by lia.
      by rewrite List.app_nil_r.
    + destruct Hf as (r & Hnet & Hst & Hloc & Hv & Hrest). rewrite Hnet.
      unfold bind at 1, emit at 1. simpl.
      assert (RapidApi.redirect_target r = Some v) as ->.
      { unfold RapidApi.redirect_target. rewrite Hloc.
        apply truthy_nonempty in Hv. rewrite Hv. by destruct Hst as [-> | ->]. }
      destruct (IH v true (c + 1) (sent w (HttpGet u)) fuel Hrest) as (w' & Hw' & Hlog & Htemp);
        [simpl in Hc; lia|simpl in Hfuel; lia|].
      exists w'. split; [exact Hw'|]. split; [|done]. rewrite Hlog.
      replace (Z.to_nat (6 - c)) with (S (Z.to_nat (6 - (c + 1)))) by lia.
      simpl. by rewrite <- List.app_assoc.
Qed.

(** Up to five redirects the counting downloader does what the others
    do. *)
Lemma mp36_makeRequest_follows (net : network) (t : stamps) (dest : string)
    (hops : list string) (u : string) (b : bool) (c : Z) (w : world) (fuel : nat) :
  follows net u hops -> c + Z.of_nat (length hops) <= 5 -> (length hops < fuel)%nat ->
  exists w', Mp36.makeRequest fuel net t dest b u c w = Some (Return tt, w')
             /\ log w' = log w ++ map HttpGet (u :: hops).
Proof.
  revert u b c w fuel. induction hops as [|v rest IH]; intros u b c w fuel Hf Hc Hfuel;
    (destruct fuel as [|fuel]; [simpl in Hfuel; lia|]); simpl Mp36.makeRequest;
    simpl in Hc; (destruct (Z.gtb_spec c 5) as [Hover|Hunder]; [lia|]).
  - destruct Hf as (r & Hnet & Hst). rewrite Hnet. unfold bind at 1, emit at 1. simpl.
    unfold RapidApi.redirect_target. rewrite Hst. simpl. by eexists.
  - destruct Hf as (r & Hnet & Hst & Hloc & Hv & Hrest). rewrite Hnet.
    unfold bind at 1, emit at 1. simpl.
    assert (RapidApi.redirect_target r = Some v) as ->.
    { unfold RapidApi.redirect_target. rewrite Hloc.
      apply truthy_nonempty in Hv. rewrite Hv. by destruct Hst as [-> | ->]. }
    destruct (IH v true (c + 1) (sent w (HttpGet u)) fuel Hrest) as (w' & Hw' & Hlog);
      [lia|simpl in Hfuel; lia|].
    exists w'. split; [exact Hw'|]. rewrite Hlog. simpl. by rewrite <- List.app_assoc.
Qed.

(** C4, on the downloaders of src/server.js and of the Cobalt variant:
    neither counts the redirects it follows. On a chain of more than five
    redirects that ends in a 200, both request every URL of the chain and
    the download succeeds, where the downloader of src/Dockerfile, which
    counts, rejects with [Too many redirects] after the request that
    answered the sixth redirect. *)
Theorem downloadFile_follows_past_the_bound (net : network) (t : stamps)
    (u dest : string) (hops : list string) (w : world) (fuel : nat) :
  follows net u hops -> (5 < length hops)%nat -> (length hops < fuel)%nat ->
  (exists w', RapidApi.downloadFile fuel net t u dest w = Some (Return tt, w')
              /\ log w' = log w ++ OpenWrite dest :: map HttpGet (u :: hops))
  /\ (exists w', Cobalt.downloadFile fuel net t (Some u) dest w = Some (Return tt, w')
              /\ log w' = log w ++ map HttpGet (u :: hops) ++ [OpenWrite dest])
  /\ (exists w', Mp36.downloadFile fuel net t u dest w
                 = Some (Throw (Error "Too many redirects"), w')
              /\ log w' = log w ++ OpenWrite dest :: map HttpGet (firstn 6 (u :: hops))).
Proof.
  intros Hf Hlong Hfuel. split; [|split; [by apply cobalt_downloadFile_follows|]].
  - unfold RapidApi.downloadFile, open_write.
    unfold bind at 1, bind at 1, emit at 1, modify at 1. simpl.
    match goal with |- context [RapidApi.makeRequest _ _ _ _ _ _ ?w0] =>
      destruct (makeRequest_follows net t dest hops u false w0 fuel Hf Hfuel) as (w' & -> & Hlog)
    end.
    exists w'. split; [done|]. rewrite Hlog. simpl. by rewrite <- List.app_assoc.
  - unfold Mp36.downloadFile, open_write.
    unfold bind at 1, bind at 1, emit at 1, modify at 1. simpl.
    match goal with |- context [Mp36.makeRequest _ _ _ _ _ _ _ ?w0] =>
      destruct (mp36_makeRequest_refuses net t dest hops u false 0 w0 fuel Hf)
        as (w' & -> & Hlog & _); [lia|done|]
    end.
    exists w'. split; [done|]. rewrite Hlog. simpl. by rewrite <- List.app_assoc.
Qed.

Lemma downloadFile_follows_past_the_bound_witness :
  (exists w', RapidApi.downloadFile 7 six_hops stamped "https://cdn.example/0" "t.mp3" (initial ∅)
              = Some (Return tt, w')
              /\ log w' = log (initial ∅) ++ OpenWrite "t.mp3"
                           :: map HttpGet ("https://cdn.example/0" :: six_urls))
  /\ (exists w', Cobalt.downloadFile 7 six_hops stamped (Some "https://cdn.example/0") "t.mp3"
                   (initial ∅)
              = Some (Return tt, w')
              /\ log w' = log (initial ∅) ++ map HttpGet ("https://cdn.example/0" :: six_urls)
                           ++ [OpenWrite "t.mp3"])
  /\ (exists w', Mp36.downloadFile 7 six_hops stamped "https://cdn.example/0" "t.mp3" (initial ∅)
                 = Some (Throw (Error "Too many redirects"), w')
              /\ log w' = log (initial ∅) ++ OpenWrite "t.mp3"
                           :: map HttpGet (firstn 6 ("https://cdn.example/0" :: six_urls))).
Proof.
  apply (downloadFile_follows_past_the_bound six_hops stamped "https://cdn.example/0" "t.mp3"
           six_urls (initial ∅) 7).
  - simpl. repeat (eexists; split; [reflexivity|]; repeat split; try (by right); try discriminate).
  - simpl. lia.
  - simpl. lia.
Defined.

(** The three downloaders on five redirects and on six. *)
Example downloadFile_five_and_six_redirects :
  reply_of (Mp36.downloadFile 7 six_hops stamped "https://cdn.example/1" "t.mp3" (initial ∅))
  = Some (Return tt)
  /\ reply_of (Mp36.downloadFile 7 six_hops stamped "https://cdn.example/0" "t.mp3" (initial ∅))
  = Some (Throw (Error "Too many redirects"))
  /\ reply_of (RapidApi.downloadFile 7 six_hops stamped "https://cdn.example/0" "t.mp3"
                 (initial ∅))
  = Some (Return tt)
  /\ reply_of (Cobalt.downloadFile 7 six_hops stamped (Some "https://cdn.example/0") "t.mp3"
                 (initial ∅))
  = Some (Return tt).
Proof. repeat split; vm_compute; reflexivity. Qed.

(** [downloadFile] of src/server.js on an answer that is neither a
    redirect nor a 200: it rejects, and the file it opened is left, empty,
    with no unlink. *)
Lemma downloadFile_failed_status_leaves_file (fuel : nat) (net : network) (t : stamps)
    (u dest : string) (r : response) (w : world) :
  protocol_get net u = Answer r -> RapidApi.redirect_target r = None ->
  statusCode r <> 200 ->
  RapidApi.downloadFile (S fuel) net t u dest w
  = Some (Throw (Error ("Download failed with status " +:+ Radix.toString 10 (statusCode r))),
          {| temp := <[ dest := {| Fs.mtimeMs := opened t; Fs.size := 0;
                                   Fs.isDirectory := false |} ]> (temp w);
             log := log w ++ [OpenWrite dest; HttpGet u];
             slot := slot w |}).
Proof.
  intros Hnet Hred Hst. unfold RapidApi.downloadFile, open_write. simpl.
  rewrite Hnet. unfold bind, emit, modify, throw. simpl. rewrite Hred.
  apply Z.eqb_neq in Hst. rewrite Hst. simpl. by rewrite <- List.app_assoc.
Qed.

(** A redirect that leads back to itself is followed for as long as
    there is fuel: the download never settles. *)
Lemma downloadFile_redirect_loop (fuel : nat) (b : bool) (w : world) :
  RapidApi.makeRequest fuel redirect_loop stamped "t.mp3" b "https://cdn.example/self" w = None
  /\ Cobalt.downloadFile fuel redirect_loop stamped (Some "https://cdn.example/self") "t.mp3" w
     = None.
Proof.
  revert b w. induction fuel as [|fuel IH]; intros b w; [done|].
  destruct (IH true (sent w (HttpGet "https://cdn.example/self"))) as [IHa IHb].
  split; [exact IHa|exact IHb].
Qed.

(** A redirect to a relative reference: [protocol.get] throws on it. In
    src/server.js the exception is thrown in the response callback and
    the promise never settles; in the Cobalt variant it rejects the
    promise of the inner call. *)
Lemma downloadFile_relative_location (fuel : nat) (w : world) :
  RapidApi.downloadFile fuel relative_hop stamped "https://cdn.example/a.mp3" "t.mp3" w = None
  /\ Cobalt.downloadFile (S (S fuel)) relative_hop stamped (Some "https://cdn.example/a.mp3")
       "t.mp3" w
     = Some (Throw (Error "Invalid URL"), sent w (HttpGet "https://cdn.example/a.mp3")).
Proof.
  split; [|reflexivity].
  destruct fuel as [|[|fuel]]; reflexivity.
Qed.

End DownloadFacts.

(** ** The conversion pipeline *)

Module PipelineFacts.
Import Js JsFacts Http Spec Samples MoreSpec.
Local Open Scope handler_scope.

(** C1, on GET /api/convert of src/server.js: the resolver gives a link,
    the media host answers 404; the handler answers 500 and the empty
    temp file it opened stays, no unlink having been tried. *)
Theorem convert_get_leaves_temp_file (isURL : string -> bool) (sanitize : string -> string) :
  isURL "https://youtu.be/dQw4w9WgXcQ" = true ->
  let res := RapidApi.convert isURL sanitize members api_link net_404 5
               1700000000000 "x7k2q" stamped (request_for "https://youtu.be/dQw4w9WgXcQ")
               (initial ∅) in
  reply_of res = Some (Return (conversion_failed "Download failed with status 404"))
  /\ log_of res =
       [ CallResolver "/download?id=dQw4w9WgXcQ&format=mp3&quality=128kbps";
         OpenWrite "1700000000000-x7k2q.mp3";
         HttpGet "https://cdn.example/a.mp3";
         Respond (conversion_failed "Download failed with status 404") ]
  /\ temp_of res !! "1700000000000-x7k2q.mp3"
     = Some {| Fs.mtimeMs := 1700000000002; Fs.size := 0; Fs.isDirectory := false |}.
Proof.
  intros HisURL res. subst res. unfold RapidApi.convert.
  replace (Gate.isAuthenticated _ _) with true by (vm_compute; reflexivity).
  cbn [negb RapidApi.query_url request_for]. rewrite HisURL.
  repeat split; vm_compute; reflexivity.
Qed.

Lemma convert_get_leaves_temp_file_witness :
  let res := RapidApi.convert web_url drop_illegal members api_link net_404 5
               1700000000000 "x7k2q" stamped (request_for "https://youtu.be/dQw4w9WgXcQ")
               (initial ∅) in
  reply_of res = Some (Return (conversion_failed "Download failed with status 404"))
  /\ log_of res =
       [ CallResolver "/download?id=dQw4w9WgXcQ&format=mp3&quality=128kbps";
         OpenWrite "1700000000000-x7k2q.mp3";
         HttpGet "https://cdn.example/a.mp3";
         Respond (conversion_failed "Download failed with status 404") ]
  /\ temp_of res !! "1700000000000-x7k2q.mp3"
     = Some {| Fs.mtimeMs := 1700000000002; Fs.size := 0; Fs.isDirectory := false |}.
Proof. apply (convert_get_leaves_temp_file web_url drop_illegal). reflexivity. Defined.

(** C8, on GET /api/convert of src/server.js: the resolver's own error
    text, and the message of the exception caught, are sent to the
    client in the field [details]. *)
Theorem convert_get_echoes_details (isURL : string -> bool) (sanitize : string -> string) :
  isURL "https://youtu.be/dQw4w9WgXcQ" = true ->
  reply_of (RapidApi.convert isURL sanitize members api_refusal net_404 5
              1700000000000 "x7k2q" stamped (request_for "https://youtu.be/dQw4w9WgXcQ")
              (initial ∅))
  = Some (Return (no_link
      "You have exceeded the MONTHLY quota for Requests on your current plan, BASIC"))
  /\ reply_of (RapidApi.convert isURL sanitize members api_link net_refused 5
              1700000000000 "x7k2q" stamped (request_for "https://youtu.be/dQw4w9WgXcQ")
              (initial ∅))
  = Some (Return (conversion_failed "connect ECONNREFUSED 10.0.0.7:443")).
Proof.
  intros HisURL. unfold RapidApi.convert.
  replace (Gate.isAuthenticated _ _) with true by (vm_compute; reflexivity).
  cbn [negb RapidApi.query_url request_for]. rewrite HisURL.
  split; vm_compute; reflexivity.
Qed.

Lemma convert_get_echoes_details_witness :
  reply_of (RapidApi.convert web_url drop_illegal members api_refusal net_404 5
              1700000000000 "x7k2q" stamped (request_for "https://youtu.be/dQw4w9WgXcQ")
              (initial ∅))
  = Some (Return (no_link
      "You have exceeded the MONTHLY quota for Requests on your current plan, BASIC"))
  /\ reply_of (RapidApi.convert web_url drop_illegal members api_link net_refused 5
              1700000000000 "x7k2q" stamped (request_for "https://youtu.be/dQw4w9WgXcQ")
              (initial ∅))
  = Some (Return (conversion_failed "connect ECONNREFUSED 10.0.0.7:443")).
Proof. apply (convert_get_echoes_details web_url drop_illegal). reflexivity. Defined.

(** Whatever the [try] block of GET /api/convert throws, the message
    thrown is the [details] of the reply. *)
Lemma convert_get_catch (isURL : string -> bool) (sanitize : string -> string)
    (sessions : Gate.registry) (api : RapidApi.resolver) (net : network)
    (fuel : nat) (now : Z) (rnd u videoId : string) (t : stamps)
    (req : RapidApi.convert_request) (e : error) (w w1 : world) :
  Gate.isAuthenticated (RapidApi.creds req) sessions = true ->
  RapidApi.query_url req = Some u -> u <> "" -> isURL u = true ->
  VideoId.extractVideoId u = Some videoId ->
  RapidApi.convert_try sanitize api net fuel now rnd t videoId
    (match RapidApi.query_quality req with Some q => q | None => "128" end) w
  = Some (Throw e, w1) ->
  RapidApi.convert isURL sanitize sessions api net fuel now rnd t req w
  = Some (Return (conversion_failed (message e)),
          sent w1 (Respond (conversion_failed (message e)))).
Proof.
  intros Hauth Hurl Hne HisURL Hid Hthrow. unfold RapidApi.convert.
  rewrite Hauth, Hurl, HisURL, Hid. apply truthy_nonempty in Hne. rewrite Hne.
  cbn [negb orb]. unfold try_catch. rewrite Hthrow. reflexivity.
Qed.

(** C6, on GET /api/convert of src/server.js: a URL on a host outside the
    allow-list that carries a marker and an ID in its path reaches the
    resolver. *)
Theorem convert_get_ignores_hostname (isURL : string -> bool) (sanitize : string -> string) :
  isURL "https://evil.example/youtu.be/dQw4w9WgXcQ" = true ->
  head (log_of (RapidApi.convert isURL sanitize members api_link net_404 5
                  1700000000000 "x7k2q" stamped
                  (request_for "https://evil.example/youtu.be/dQw4w9WgXcQ")
                  (initial ∅)))
  = Some (CallResolver "/download?id=dQw4w9WgXcQ&format=mp3&quality=128kbps").
Proof.
  intros HisURL. unfold RapidApi.convert.
  replace (Gate.isAuthenticated _ _) with true by (vm_compute; reflexivity).
  cbn [negb RapidApi.query_url request_for]. rewrite HisURL.
  vm_compute. reflexivity.
Qed.

Lemma convert_get_ignores_hostname_witness :
  host_of "https://evil.example/youtu.be/dQw4w9WgXcQ" = Some "evil.example"
  /\ head (log_of (RapidApi.convert web_url drop_illegal members api_link net_404 5
                  1700000000000 "x7k2q" stamped
                  (request_for "https://evil.example/youtu.be/dQw4w9WgXcQ")
                  (initial ∅)))
  = Some (CallResolver "/download?id=dQw4w9WgXcQ&format=mp3&quality=128kbps").
Proof.
  split; [reflexivity|].
  apply (convert_get_ignores_hostname web_url drop_illegal). reflexivity.
Defined.

(** C7, on the two handlers of src/unnamed/part_001: the fallback is
    taken before [sanitize] runs, so a name that [sanitize] empties is
    served as [.mp3]; src/server.js falls back to [audio.mp3]. *)
Theorem served_name_without_fallback (sanitize : string -> string) (name : string) :
  name <> "" -> sanitize name = "" ->
  Cobalt.served_name sanitize name = ".mp3"
  /\ YtDlp.served_name sanitize (Some name) = ".mp3"
  /\ RapidApi.served_name sanitize name = "audio.mp3".
Proof.
  intros Hne%truthy_nonempty Hs.
  unfold Cobalt.served_name, Cobalt.safeFilename, YtDlp.served_name, YtDlp.safeTitle,
    RapidApi.served_name, RapidApi.safeTitle, capped, opt_or, or_else.
  rewrite Hne, Hs. done.
Qed.

Lemma served_name_without_fallback_witness :
  Cobalt.served_name drop_illegal "???" = ".mp3"
  /\ YtDlp.served_name drop_illegal (Some "???") = ".mp3"
  /\ RapidApi.served_name drop_illegal "???" = "audio.mp3".
Proof.
  apply (served_name_without_fallback drop_illegal "???"); [discriminate|reflexivity].
Defined.

(** The name served by src/server.js: never empty, at most 100
    characters before the extension, made of characters [sanitize] left,
    and [audio] when nothing is left. *)
Lemma safeTitle_server (sanitize : string -> string) (title : string) :
  let name := RapidApi.safeTitle sanitize title in
  name <> ""
  /\ (String.length name <= 100)%nat
  /\ (sanitize title = "" -> name = "audio")
  /\ (sanitize title <> "" -> name = take 100 (sanitize title))
  /\ forall bad : ascii -> bool,
       Forall (fun c => bad c = false) (chars (sanitize title)) ->
       Forall (fun c => bad c = false) (chars "audio") ->
       Forall (fun c => bad c = false) (chars name).
Proof.
  unfold RapidApi.safeTitle, capped, or_else.
  destruct (truthy (take 100 (sanitize title))) eqn:Ht; cbn zeta.
  - split; [by apply truthy_nonempty|]. split; [apply length_take|].
    split; [intros Hs; by rewrite Hs in Ht|]. split; [done|].
    intros bad Hall _. rewrite take_chars. by apply Forall_take.
  - split; [done|]. split; [simpl; lia|]. split; [done|].
    split; [|done]. intros Hs. destruct (sanitize title); [done|discriminate].
Qed.

(** The handlers on a conversion that succeeds, and the cleanup that
    follows the transfer. *)
Example convert_get_succeeds :
  let res := RapidApi.convert web_url drop_illegal members api_link net_ok 5
               1700000000000 "x7k2q" stamped (request_for "https://youtu.be/dQw4w9WgXcQ")
               (initial ∅) in
  reply_of res = Some (Return (Attachment "1700000000000-x7k2q.mp3" "Song.mp3" (Some 4096)))
  /\ temp_of res !! "1700000000000-x7k2q.mp3"
     = Some {| Fs.mtimeMs := 1700000000950; Fs.size := 4096; Fs.isDirectory := false |}
  /\ temp_of (match res with
              | Some (_, w) => RapidApi.on_close "1700000000000-x7k2q.mp3" w
              | None => None
              end) !! "1700000000000-x7k2q.mp3" = None.
Proof. repeat split; vm_compute; reflexivity. Qed.

Example convert_get_unauthorized :
  reply_of (RapidApi.convert web_url drop_illegal [] api_link net_ok 5
              1700000000000 "x7k2q" stamped (request_for "https://youtu.be/dQw4w9WgXcQ")
              (initial ∅))
  = Some (Return (Json 401 [ ("error", JStr "Unauthorized") ])).
Proof. reflexivity. Qed.

Example convert_post_succeeds :
  let res := Cobalt.convert web_url host_of drop_illegal cobalt_link net_ok 5 None
               1700000000000 "x7k2q" stamped (Some "https://youtu.be/dQw4w9WgXcQ") (initial ∅) in
  reply_of res = Some (Return (Attachment "1700000000000-x7k2q.mp3" "Song.mp3.mp3" None))
  /\ log_of res =
       [ CallResolver "https://youtu.be/dQw4w9WgXcQ";
         HttpGet "https://cdn.example/a.mp3";
         OpenWrite "1700000000000-x7k2q.mp3";
         Respond (Attachment "1700000000000-x7k2q.mp3" "Song.mp3.mp3" None) ].
Proof. repeat split; vm_compute; reflexivity. Qed.

(** *** POST /api/convert of the Cobalt variant *)

Lemma isValidYouTubeUrl_true (isURL : string -> bool) (hostname : string -> option string)
    (url : string) :
  Cobalt.isValidYouTubeUrl isURL hostname url = true <->
  isURL url = true /\ exists h, hostname url = Some h /\ h ∈ Cobalt.allowedDomains.
Proof.
  unfold Cobalt.isValidYouTubeUrl. destruct (isURL url); simpl.
  - destruct (hostname url) as [h|].
    + rewrite bool_decide_eq_true. split; [intros ?; split; [done|by exists h]|].
      by intros [_ (h' & [= <-] & ?)].
    + split; [done|]. by intros [_ (h' & [=] & _)].
  - split; [done|]. by intros [? _].
Qed.

(** A URL whose host is not one of the four allowed is answered 400, and
    nothing else happens: the resolver is not called. *)
Lemma convert_post_rejects_other_hosts (isURL : string -> bool)
    (hostname : string -> option string) (sanitize : string -> string)
    (service : string -> Cobalt.cobalt_reply) (net : network) (fuel : nat)
    (mkdir_failure : option string) (now : Z) (rnd url h : string) (t : stamps)
    (w : world) :
  url <> "" -> hostname url = Some h -> h ∉ Cobalt.allowedDomains ->
  Cobalt.convert isURL hostname sanitize service net fuel mkdir_failure now rnd t (Some url) w
  = Some (Return only_youtube, sent w (Respond only_youtube)).
Proof.
  intros Hne%truthy_nonempty Hhost Hnotin. unfold Cobalt.convert. rewrite Hne.
  assert (Cobalt.isValidYouTubeUrl isURL hostname url = false) as ->.
  { apply not_true_is_false. intros (_ & h' & Hh' & Hin)%isValidYouTubeUrl_true.
    congruence. }
  reflexivity.
Qed.

Lemma convert_post_rejects_other_hosts_witness :
  Cobalt.convert web_url host_of drop_illegal cobalt_link net_404 5 None
    1700000000000 "x7k2q" stamped
    (Some "https://evil.example/youtu.be/dQw4w9WgXcQ") (initial ∅)
  = Some (Return only_youtube, sent (initial ∅) (Respond only_youtube)).
Proof.
  apply (convert_post_rejects_other_hosts web_url host_of drop_illegal cobalt_link net_404 5
           None 1700000000000 "x7k2q" "https://evil.example/youtu.be/dQw4w9WgXcQ"
           "evil.example" stamped).
  - discriminate.
  - reflexivity.
  - apply (bool_decide_unpack _). vm_compute. exact I.
Defined.



Lemma getCobaltDownloadUrl_slot (service : string -> Cobalt.cobalt_reply)
    (url : string) (w w' : world) (o : outcome Cobalt.cobalt_result) :
  Cobalt.getCobaltDownloadUrl service url w = Some (o, w') -> slot w' = slot w.
Proof.
  unfold Cobalt.getCobaltDownloadUrl, bind, emit. simpl.
  destruct (service url) as [r| |reason]; [|by intros [= <- <-]..].
  destruct (Cobalt.status_is r "error"); [by intros [= <- <-]|].
  destruct (Cobalt.status_is r "redirect" || Cobalt.status_is r "stream");
    [by intros [= <- <-]|].
  destruct (truthy_opt (Cobalt.url r)); by intros [= <- <-].
Qed.








End PipelineFacts.

(** ** Video-ID extraction: the URL forms and the bare form *)

Module VideoIdForms.
Import Js JsFacts VideoId Spec VideoIdFacts.

Local Arguments take_id : simpl never.

Lemma match_here_unfold (m : string) (ms : list string) (s : string) :
  match_here (m :: ms) s =
  match strip_prefix m s with
  | Some rest =>
      match take_id 11 rest with
      | Some id => Some id
      | None => match_here ms s
      end
  | None => match_here ms s
  end.
Proof. reflexivity. Qed.

Lemma match_here_none (ms : list string) (s : string) :
  (forall m, m ∈ ms -> strip_prefix m s = None) -> match_here ms s = None.
Proof.
  induction ms as [|m ms IH]; intros Hnone; [done|].
  rewrite match_here_unfold, Hnone by left. apply IH. intros m' Hm'. apply Hnone. by right.
Qed.

(** Every marker starts with the letter y. *)
Lemma marker_starts_with_y (m : string) :
  m ∈ markers -> exists m', m = String "y" m'.
Proof.
  unfold markers. rewrite !elem_of_cons, elem_of_nil.
  intros [->|[->|[->|[->|[]]]]]; by eexists.
Qed.

Lemma match_here_other_letter (c : ascii) (s : string) :
  c <> "y"%char -> match_here markers (String c s) = None.
Proof.
  intros Hc. apply match_here_none. intros m [m' ->]%marker_starts_with_y.
  cbn [strip_prefix]. destruct (Ascii.eqb_spec "y" c); [congruence|done].
Qed.

Lemma search_skips_prefix (pre s : string) :
  "y"%char ∉ chars pre -> search (pre +:+ s) = search s.
Proof.
  induction pre as [|c pre IH]; intros Hy; [done|].
  unfold chars in Hy. simpl in Hy. apply not_elem_of_cons in Hy as [Hc Hy].
  rewrite str_app_cons, search_unfold, match_here_other_letter by done. by apply IH.
Qed.

(** No marker is the start of another marker followed by anything. *)
Lemma marker_unambiguous (m m' rest : string) :
  m ∈ markers -> m' ∈ markers -> m <> m' -> strip_prefix m' (m +:+ rest) = None.
Proof.
  unfold markers. rewrite !elem_of_cons, !elem_of_nil.
  intros [->|[->|[->|[->|[]]]]] [->|[->|[->|[->|[]]]]] Hne; done.
Qed.

Lemma match_here_marker (m id post : string) :
  m ∈ markers -> is_id id -> match_here markers (m +:+ id +:+ post) = Some id.
Proof.
  intros Hm Hid.
  assert (Hgen : forall ms, m ∈ ms -> (forall m', m' ∈ ms -> m' ∈ markers) ->
                 match_here ms (m +:+ id +:+ post) = Some id).
  { induction ms as [|m0 ms IH]; intros Hin Hsub; [by apply elem_of_nil in Hin|].
    rewrite match_here_unfold. destruct (decide (m0 = m)) as [->|Hne].
    - by rewrite strip_prefix_app, is_id_take.
    - rewrite (marker_unambiguous m m0) by (try done; apply Hsub; by left).
      apply elem_of_cons in Hin as [Heq|Hin]; [congruence|].
      apply IH; [done|]. intros m' Hm'. apply Hsub. by right. }
  by apply Hgen.
Qed.

(** Every watch, short, embed or /v/ URL of one ID yields that ID,
    whatever scheme and host prefix come before the marker (as long as
    they hold no letter y) and whatever follows the ID. *)
Theorem extractVideoId_url_forms (pre m id post : string) :
  "y"%char ∉ chars pre -> m ∈ markers -> is_id id ->
  extractVideoId (pre +:+ m +:+ id +:+ post) = Some id.
Proof.
  intros Hy Hm Hid. unfold extractVideoId.
  rewrite search_skips_prefix, search_unfold, match_here_marker; done.
Qed.

Lemma extractVideoId_url_forms_witness :
  extractVideoId ("https://www." +:+ "youtube.com/watch?v=" +:+ "dQw4w9WgXcQ" +:+ "&t=42s")
  = Some "dQw4w9WgXcQ".
Proof.
  apply (extractVideoId_url_forms "https://www." "youtube.com/watch?v=" "dQw4w9WgXcQ" "&t=42s").
  - apply (bool_decide_unpack _). vm_compute. exact I.
  - apply (bool_decide_unpack _). vm_compute. exact I.
  - split; [reflexivity|]. apply (bool_decide_unpack _). vm_compute. exact I.
Defined.

(** A string of ID characters holds no marker: every marker has a dot. *)
Lemma strip_prefix_chars (p s r : string) (P : ascii -> Prop) :
  strip_prefix p s = Some r -> Forall P (chars s) -> Forall P (chars p).
Proof.
  intros ->%strip_prefix_Some. rewrite chars_app. by intros [? _]%Forall_app.
Qed.

Lemma marker_has_dot (m : string) : m ∈ markers -> "."%char ∈ chars m.
Proof.
  unfold markers. rewrite !elem_of_cons, elem_of_nil.
  intros [->|[->|[->|[->|[]]]]]; apply (bool_decide_unpack _); vm_compute; exact I.
Qed.

Lemma match_here_id_chars (s : string) :
  Forall (fun c => is_id_char c = true) (chars s) -> match_here markers s = None.
Proof.
  intros Hall. apply match_here_none. intros m Hm.
  destruct (strip_prefix m s) as [r|] eqn:Hs; [|done]. exfalso.
  pose proof (strip_prefix_chars _ _ _ _ Hs Hall) as Hm_all.
  rewrite Forall_forall in Hm_all. specialize (Hm_all _ (marker_has_dot m Hm)).
  discriminate.
Qed.

Lemma search_id_chars (s : string) :
  Forall (fun c => is_id_char c = true) (chars s) -> search s = None.
Proof.
  induction s as [|c s IH]; intros Hall; rewrite search_unfold, match_here_id_chars by done.
  - done.
  - apply IH. unfold chars in *. simpl in Hall. by inversion Hall.
Qed.

Lemma match_bare_length (s : string) :
  Forall (fun c => is_id_char c = true) (chars s) ->
  match_bare s = if (String.length s =? 11)%nat then Some s else None.
Proof.
  intros Hall. destruct (Nat.eqb_spec (String.length s) 11) as [Hlen|Hlen].
  - by apply match_bare_Some.
  - unfold match_bare. destruct (take_id 11 s); [|done].
    by rewrite (proj2 (Nat.eqb_neq _ _)).
Qed.

(** On a string of ID characters only, extraction returns the string
    itself when it has 11 characters and nothing otherwise: an ID inside a
    longer run of ID characters is not found. *)
Theorem extractVideoId_bare (s : string) :
  Forall (fun c => is_id_char c = true) (chars s) ->
  extractVideoId s = if (String.length s =? 11)%nat then Some s else None.
Proof.
  intros Hall. unfold extractVideoId. rewrite search_id_chars by done.
  by apply match_bare_length.
Qed.

Lemma extractVideoId_bare_witness :
  extractVideoId "xxdQw4w9WgXcQyy"
  = if (String.length "xxdQw4w9WgXcQyy" =? 11)%nat then Some "xxdQw4w9WgXcQyy" else None.
Proof.
  apply (extractVideoId_bare "xxdQw4w9WgXcQyy").
  apply (bool_decide_unpack _). vm_compute. exact I.
Defined.

(** Extraction is idempotent: the ID it returns is itself accepted, and
    yields itself. *)
Theorem extractVideoId_idempotent (url id : string) :
  extractVideoId url = Some id -> extractVideoId id = Some id.
Proof.
  intros [[Hlen Hall] _]%extractVideoId_Some.
  unfold extractVideoId. rewrite search_id_chars by done.
  by rewrite match_bare_length, Hlen.
Qed.

Lemma extractVideoId_idempotent_witness :
  extractVideoId "dQw4w9WgXcQ" = Some "dQw4w9WgXcQ".
Proof.
  apply (extractVideoId_idempotent "https://youtu.be/dQw4w9WgXcQ?si=abc"). reflexivity.
Defined.

End VideoIdForms.

(** ** The sweep: what it logs, and sweeping again *)

Module SweepMore.
Import Fs Spec Samples SweepFacts.

Lemma swept_cons_ne (now : Z) (file : string) (rest : list string) (f : string) (st : Stats) :
  file <> f -> swept now (file :: rest) f st = swept now rest f st.
Proof.
  intros Hne. unfold swept. f_equal. f_equal.
  apply bool_decide_ext. rewrite elem_of_cons.
  split; [intros [Heq|Hin]; [by symmetry in Heq|done]|by right].
Qed.

Lemma swept_head (now : Z) (file : string) (rest : list string) (st : Stats) :
  swept now (file :: rest) file st = expired now st && negb (isDirectory st).
Proof. unfold swept. by rewrite bool_decide_eq_true_2 by left. Qed.

Lemma swept_expired (now : Z) (files : list string) (f : string) (st : Stats) :
  swept now files f st = true -> expired now st = true /\ isDirectory st = false.
Proof.
  unfold swept. rewrite !andb_true_iff, negb_true_iff. by intros [[_ ?] ?].
Qed.

(** The per-entry guarded sweep logs a file as cleaned up exactly when
    the file was listed, expired and regular, and it logs no error. *)
Lemma loopB_log (now : Z) (files : list string) (d : dir) (line : console_line) :
  line ∈ (SweepB.loop now files d).2 <->
  exists f st, line = CleanedUp f /\ d !! f = Some st /\ swept now files f st = true.
Proof.
  revert d. induction files as [|file rest IH]; intros d; simpl.
  - split; [by intros ?%elem_of_nil|]. intros (f & st & _ & _ & Hsw).
    unfold swept in Hsw. by rewrite bool_decide_eq_false_2 in Hsw by apply not_elem_of_nil.
  - unfold stat. destruct (d !! file) as [stats|] eqn:Hfile.
    + destruct (expired now stats) eqn:Hexp.
      * unfold unlink. rewrite Hfile. destruct (isDirectory stats) eqn:Hdir.
        -- rewrite IH. split; intros (f & st & -> & Hf & Hsw); exists f, st.
           ++ destruct (decide (file = f)) as [->|Hne]; [|by rewrite swept_cons_ne].
              apply swept_expired in Hsw as [_ Hd]. congruence.
           ++ destruct (decide (file = f)) as [->|Hne]; [|by rewrite swept_cons_ne in Hsw].
              apply swept_expired in Hsw as [_ Hd]. congruence.
        -- destruct (SweepB.loop now rest (delete file d)) as [d'' out] eqn:Hloop.
           simpl. rewrite elem_of_cons. change out with (d'', out).2. rewrite <- Hloop, IH.
           split.
           ++ intros [->|(f & st & -> & Hf & Hsw)].
              ** exists file, stats. by rewrite swept_head, Hexp, Hdir.
              ** apply lookup_delete_Some in Hf as [Hne Hf].
                 exists f, st. by rewrite swept_cons_ne.
           ++ intros (f & st & -> & Hf & Hsw).
              destruct (decide (file = f)) as [->|Hne]; [by left|]. right.
              exists f, st. rewrite lookup_delete_ne by done.
              by rewrite swept_cons_ne in Hsw.
      * rewrite IH. split; intros (f & st & -> & Hf & Hsw); exists f, st.
        -- destruct (decide (file = f)) as [->|Hne]; [|by rewrite swept_cons_ne].
           apply swept_expired in Hsw as [He _]. congruence.
        -- destruct (decide (file = f)) as [->|Hne]; [|by rewrite swept_cons_ne in Hsw].
           apply swept_expired in Hsw as [He _]. congruence.
    + rewrite IH. split; intros (f & st & -> & Hf & Hsw); exists f, st.
      * destruct (decide (file = f)) as [->|Hne]; [congruence|by rewrite swept_cons_ne].
      * destruct (decide (file = f)) as [->|Hne]; [congruence|by rewrite swept_cons_ne in Hsw].
Qed.

(** What the sweep of src/unnamed/part_001 writes to the console is the
    list of what it deleted: a file is logged as cleaned up if and only
    if it was there before the sweep and is gone after it, and no error
    line is written. *)
Theorem sweepB_logs_what_it_deletes (now : Z) (files : list string) (d : dir) :
  (forall f, CleanedUp f ∈ (SweepB.cleanupOldFiles now files d).2 <->
             is_Some (d !! f) /\ (SweepB.cleanupOldFiles now files d).1 !! f = None)
  /\ (forall e, CleanupError e ∉ (SweepB.cleanupOldFiles now files d).2).
Proof.
  unfold SweepB.cleanupOldFiles. split.
  - intros f. rewrite loopB_log, loopB_lookup. split.
    + intros (f' & st & [= <-] & Hf & Hsw). rewrite Hf, Hsw. by split; [eexists|].
    + intros [[st Hf] Hgone]. rewrite Hf in Hgone. exists f, st.
      by destruct (swept now files f st).
  - intros e (f & st & [=] & _)%loopB_log.
Qed.

(** Sweeping again at the same time, over the same listing, changes
    nothing and logs nothing. *)
Theorem sweepB_idempotent (now : Z) (files : list string) (d : dir) :
  SweepB.cleanupOldFiles now files (SweepB.cleanupOldFiles now files d).1
  = ((SweepB.cleanupOldFiles now files d).1, []).
Proof.
  unfold SweepB.cleanupOldFiles.
  destruct (SweepB.loop now files (SweepB.loop now files d).1) as [d2 out] eqn:Hloop.
  f_equal.
  - change d2 with (d2, out).1. rewrite <- Hloop. apply map_eq. intros f.
    rewrite !loopB_lookup. destruct (d !! f) as [st|]; [|done].
    destruct (swept now files f st) eqn:Hsw; [done|]. by rewrite Hsw.
  - destruct out as [|line out]; [done|]. exfalso.
    assert (Hin : line ∈ (SweepB.loop now files (SweepB.loop now files d).1).2)
      by (rewrite Hloop; left).
    apply loopB_log in Hin as (f & st & _ & Hf & Hsw).
    rewrite loopB_lookup in Hf. destruct (d !! f) as [st'|]; [|done].
    destruct (swept now files f st') eqn:Hsw'; [done|]. congruence.
Qed.

(* A loop of src/server.js that ends without an exception did what the
   guarded loop does. *)
Lemma loopA_no_failure (now : Z) (files : list string) (d d' : dir) :
  SweepA.loop now files d = (None, d') -> d' = (SweepB.loop now files d).1.
Proof.
  revert d. induction files as [|file rest IH]; intros d; simpl; [by intros [= <-]|].
  unfold stat. destruct (d !! file) as [stats|] eqn:Hfile; [|by intros [=]].
  destruct (expired now stats); [|by apply IH].
  unfold unlink. rewrite Hfile. destruct (isDirectory stats); [by intros [=]|].
  intros H%IH. by destruct (SweepB.loop now rest (delete file d)).
Qed.

(** When the single-[try] sweep of src/server.js logs no error, it
    leaves the directory the per-entry guarded sweep of
    src/unnamed/part_001 leaves: the two differ only after a failure. *)
Theorem sweepA_quiet_agrees_with_sweepB (now : Z) (files : list string) (d : dir) :
  (SweepA.cleanupOldFiles now files d).2 = [] ->
  (SweepA.cleanupOldFiles now files d).1 = (SweepB.cleanupOldFiles now files d).1.
Proof.
  unfold SweepA.cleanupOldFiles, SweepB.cleanupOldFiles.
  destruct (SweepA.loop now files d) as [[e|] d'] eqn:Hloop; [by intros [=]|].
  intros _. simpl. by apply loopA_no_failure.
Qed.

Lemma sweepA_quiet_agrees_with_sweepB_witness :
  (SweepA.cleanupOldFiles 2000000 ["old.mp3"; "new.mp3"] two_files).1
  = (SweepB.cleanupOldFiles 2000000 ["old.mp3"; "new.mp3"] two_files).1.
Proof.
  apply (sweepA_quiet_agrees_with_sweepB 2000000 ["old.mp3"; "new.mp3"] two_files).
  vm_compute. reflexivity.
Defined.

(** Neither sweep adds an entry or changes the stats of one, on any
    listing, with or without failures. *)
Theorem sweep_only_removes (now : Z) (files : list string) (d : dir) :
  (SweepA.cleanupOldFiles now files d).1 ⊆ d
  /\ (SweepB.cleanupOldFiles now files d).1 ⊆ d.
Proof.
  split; apply map_subseteq_spec; intros f st.
  - assert ((SweepA.cleanupOldFiles now files d).1 = (SweepA.loop now files d).2) as ->.
    { unfold SweepA.cleanupOldFiles. by destruct (SweepA.loop now files d) as [[e|] d']. }
    destruct (loopA_lookup now files d f) as [->|(st' & _ & _ & ->)]; done.
  - unfold SweepB.cleanupOldFiles. rewrite loopB_lookup.
    destruct (d !! f) as [st'|]; [|done]. by destruct (swept now files f st').
Qed.

(** A file at or under the threshold survives either sweep, whatever
    else the listing holds and whichever calls fail. *)
Theorem sweep_spares_recent_files (now : Z) (files : list string) (d : dir)
    (f : string) (st : Stats) :
  d !! f = Some st -> now - mtimeMs st <= MAX_FILE_AGE_MS ->
  (SweepA.cleanupOldFiles now files d).1 !! f = Some st
  /\ (SweepB.cleanupOldFiles now files d).1 !! f = Some st.
Proof. apply sweep_keeps_unexpired. Qed.

Lemma sweep_spares_recent_files_witness :
  (SweepA.cleanupOldFiles 1800000 ["cache"; "old.mp3"] after_subdir).1 !! "old.mp3"
    = Some {| mtimeMs := 0; size := 7; isDirectory := false |}
  /\ (SweepB.cleanupOldFiles 1800000 ["cache"; "old.mp3"] after_subdir).1 !! "old.mp3"
    = Some {| mtimeMs := 0; size := 7; isDirectory := false |}.
Proof.
  apply (sweep_spares_recent_files 1800000 ["cache"; "old.mp3"] after_subdir "old.mp3").
  - vm_compute. reflexivity.
  - vm_compute. discriminate.
Defined.

End SweepMore.

(** ** Names: timestamps as text, temp paths and session ids *)

Module NameFacts.
Import Js JsFacts Spec Digits.

Lemma digit_value_digit (k : Z) :
  0 <= k < 36 -> digit_value (Radix.digit k) = Some k.
Proof.
  intros Hk. assert (Hn : exists m : nat, k = Z.of_nat m /\ (m < 36)%nat).
  { exists (Z.to_nat k). lia. }
  destruct Hn as (m & -> & Hm).
  do 36 (destruct m as [|m]; [reflexivity|]). lia.
Qed.

(** The digits [render] puts in front of [acc] write [n]: read on top of
    any [a], they lead to [a * P + n] for the weight [P] of their number. *)
Lemma render_value (fuel : nat) (r n : Z) (acc : string) :
  2 <= r <= 36 -> 0 <= n < 2 ^ (Z.of_nat fuel + 1) ->
  exists ds P,
    Radix.render fuel r n acc = ds +:+ acc
    /\ forall a t, value_from r a (ds +:+ t) = value_from r (a * P + n) t.
Proof.
  intros Hr. revert n acc. induction fuel as [|fuel IH]; intros n acc Hn.
  - assert (n < r) by (cbn in Hn; lia).
    exists (String (Radix.digit (n mod r)) ""), r. split; [done|].
    intros a t. rewrite str_app_cons, str_app_nil. cbn [value_from].
    rewrite Z.mod_small by lia. rewrite digit_value_digit by lia.
    by rewrite (proj2 (Z.ltb_lt _ _)) by lia.
  - cbn [Radix.render]. destruct (Z.eqb_spec (n / r) 0) as [Hq|Hq].
    + assert (n < r).
      { apply Z.div_small_iff in Hq; lia. }
      exists (String (Radix.digit (n mod r)) ""), r. split; [done|].
      intros a t. rewrite str_app_cons, str_app_nil. cbn [value_from].
      rewrite Z.mod_small by lia. rewrite digit_value_digit by lia.
      by rewrite (proj2 (Z.ltb_lt _ _)) by lia.
    + assert (Hdiv : 0 <= n / r < 2 ^ (Z.of_nat fuel + 1)).
      { split; [apply Z.div_pos; lia|].
        apply Z.div_lt_upper_bound; [lia|].
        replace (Z.of_nat (S fuel) + 1) with (Z.succ (Z.of_nat fuel + 1)) in Hn by lia.
        rewrite Z.pow_succ_r in Hn by lia.
        assert (0 < 2 ^ (Z.of_nat fuel + 1)) by (apply Z.pow_pos_nonneg; lia).
        nia. }
      destruct (IH (n / r) (String (Radix.digit (n mod r)) acc) Hdiv) as (ds & P & Hds & Hval).
      exists (ds +:+ String (Radix.digit (n mod r)) ""), (P * r). split.
      * rewrite Hds, str_app_assoc. by rewrite str_app_cons, str_app_nil.
      * intros a t. rewrite str_app_assoc, str_app_cons, str_app_nil, Hval.
        cbn [value_from].
        assert (0 <= n mod r < r) by (apply Z.mod_pos_bound; lia).
        rewrite digit_value_digit by lia.
        rewrite (proj2 (Z.ltb_lt _ _)) by lia.
        f_equal. pose proof (Z.div_mod n r ltac:(lia)). nia.
Qed.

(** Reading back what [toString] wrote gives the number. *)
Lemma value_toString (r n : Z) :
  2 <= r <= 36 -> 0 <= n -> value r (Radix.toString r n) = Some n.
Proof.
  intros Hr Hn. unfold Radix.toString. rewrite (proj2 (Z.ltb_ge _ _)) by lia.
  assert (Hfuel : 0 <= n < 2 ^ (Z.of_nat (Z.to_nat (Z.log2 n)) + 1)).
  { rewrite Z2Nat.id by apply Z.log2_nonneg. split; [done|].
    destruct (Z.eq_dec n 0) as [->|]; [done|].
    replace (Z.log2 n + 1) with (Z.succ (Z.log2 n)) by lia.
    apply Z.log2_spec. lia. }
  destruct (render_value _ r n "" Hr Hfuel) as (ds & P & -> & Hval).
  unfold value. rewrite Hval. cbn [value_from]. f_equal; lia.
Qed.

Lemma toString_inj (r n m : Z) :
  2 <= r <= 36 -> 0 <= n -> 0 <= m ->
  Radix.toString r n = Radix.toString r m -> n = m.
Proof.
  intros Hr Hn Hm Heq. pose proof (value_toString r n Hr Hn) as H1.
  rewrite Heq, value_toString in H1 by done. congruence.
Qed.

Lemma value_from_chars (r a v : Z) (s : string) (c : ascii) :
  value_from r a s = Some v -> c ∈ chars s -> is_Some (digit_value c).
Proof.
  revert a. induction s as [|c0 s IH]; intros a; simpl.
  - unfold chars. simpl. by intros _ ?%elem_of_nil.
  - destruct (digit_value c0) as [v0|] eqn:Hc0; [|done].
    destruct (v0 <? r); [|done]. intros Hv. unfold chars. simpl.
    intros [->|Hin]%elem_of_cons; [by eexists|]. by eapply IH.
Qed.

(** A timestamp written in decimal holds no hyphen. *)
Lemma toString_no_dash (n : Z) : 0 <= n -> "-"%char ∉ chars (Radix.toString 10 n).
Proof.
  intros Hn Hin. pose proof (value_toString 10 n ltac:(lia) Hn) as Hv.
  destruct (value_from_chars _ _ _ _ _ Hv Hin) as [v Hdash]. discriminate.
Qed.

Lemma split_at_dash (s1 s2 t1 t2 : string) :
  "-"%char ∉ chars s1 -> "-"%char ∉ chars s2 ->
  s1 +:+ String "-" t1 = s2 +:+ String "-" t2 -> s1 = s2 /\ t1 = t2.
Proof.
  revert s2. induction s1 as [|c s1 IH]; intros [|c2 s2] H1 H2;
    rewrite ?str_app_nil, ?str_app_cons.
  - by intros [= ->].
  - intros [= <- _]. exfalso. apply H2. unfold chars. simpl. by left.
  - intros [= -> _]. exfalso. apply H1. unfold chars. simpl. by left.
  - unfold chars in H1, H2. simpl in H1, H2.
    apply not_elem_of_cons in H1 as [_ H1]. apply not_elem_of_cons in H2 as [_ H2].
    intros [= -> Heq]. destruct (IH s2 H1 H2 Heq) as [-> ->]. done.
Qed.

Lemma app_inj_r (s1 s2 e : string) : s1 +:+ e = s2 +:+ e -> s1 = s2.
Proof.
  revert s2. induction s1 as [|c s1 IH]; intros [|c2 s2];
    rewrite ?str_app_nil, ?str_app_cons.
  - done.
  - intros Heq. apply (f_equal String.length) in Heq.
    simpl in Heq. rewrite str_length_app in Heq. lia.
  - intros Heq. apply (f_equal String.length) in Heq.
    simpl in Heq. rewrite str_length_app in Heq. lia.
  - intros [= -> Heq]. f_equal. by apply IH.
Qed.

(** Two temp paths are the same only when both the timestamp and the
    random suffix are: requests that differ in either never share a temp
    file. *)
Theorem temp_name_inj (now1 now2 : Z) (rnd1 rnd2 : string) :
  0 <= now1 -> 0 <= now2 ->
  Http.temp_name now1 rnd1 = Http.temp_name now2 rnd2 ->
  now1 = now2 /\ rnd1 = rnd2.
Proof.
  intros H1 H2. unfold Http.temp_name.
  change ("-" +:+ ?x) with (String "-" x).
  intros [Hnow Hrnd]%split_at_dash; [|by apply toString_no_dash..].
  split; [by apply (toString_inj 10); [lia|..]|by apply app_inj_r in Hrnd].
Qed.

Lemma temp_name_inj_witness : 1700000000000 = 1700000000000 /\ "x7k2q" = "x7k2q".
Proof.
  apply (temp_name_inj 1700000000000 1700000000000 "x7k2q" "x7k2q"); [lia|lia|reflexivity].
Defined.

(** A session id tells its timestamp among ids with one random part, and
    its random part among ids of one timestamp. *)
Theorem generateSessionId_inj (rnd1 rnd2 : string) (now1 now2 : Z) :
  0 <= now1 -> 0 <= now2 ->
  (Gate.generateSessionId rnd1 now1 = Gate.generateSessionId rnd1 now2 -> now1 = now2)
  /\ (Gate.generateSessionId rnd1 now1 = Gate.generateSessionId rnd2 now1 -> rnd1 = rnd2).
Proof.
  intros H1 H2. unfold Gate.generateSessionId. split.
  - intros Heq%(inj (String.app rnd1)). by apply (toString_inj 36); [lia|..].
  - apply app_inj_r.
Qed.

Lemma generateSessionId_inj_witness :
  (Gate.generateSessionId "k3j9x" 100000000 = Gate.generateSessionId "k3j9x" 100000000
   -> 100000000 = 100000000)
  /\ (Gate.generateSessionId "k3j9x" 100000000 = Gate.generateSessionId "k3j9x" 100000000
      -> "k3j9x" = "k3j9x").
Proof. apply (generateSessionId_inj "k3j9x" "k3j9x" 100000000 100000000); lia. Defined.

End NameFacts.

(** ** The access gate, whatever the clock reads *)

Module GateMore.
Import Js JsFacts Gate Spec Samples GateFacts.

(** Whatever the password, the random part and the readings of the
    clock: the handler of POST /api/auth keeps the ids of the registry
    distinct, adds at most one entry, never alters the creation time of a
    session it keeps, and leaves the registry as it was when it denies;
    and it denies exactly when the password is not the configured one. *)
Theorem auth_keeps_registry_sound (AUTH_PASSWORD : string) (password : option string)
    (rnd : string) (clock : nat -> Z) (sessions : registry) :
  well_formed sessions ->
  let reply := (auth AUTH_PASSWORD password rnd clock sessions).1 in
  let after := (auth AUTH_PASSWORD password rnd clock sessions).2 in
  well_formed after
  /\ (length after <= length sessions + 1)%nat
  /\ (forall k c, (k, c) ∈ after ->
        (k, c) ∈ sessions \/ (reply = Granted k /\ c = clock 1%nat))
  /\ (reply = Denied -> after = sessions)
  /\ (reply = Denied <-> password <> Some AUTH_PASSWORD)
  /\ (password = Some AUTH_PASSWORD ->
        reply = Granted (generateSessionId rnd (clock 0%nat))).
Proof.
  intros Hwf reply after. subst reply after. unfold auth.
  destruct password as [p|]; [destruct (String.eqb_spec p AUTH_PASSWORD) as [->|Hne]|]; simpl.
  - split; [by apply evict_well_formed_any, set_well_formed|].
    split.
    { pose proof (length_evict clock 2 (set sessions (generateSessionId rnd (clock 0%nat)) (clock 1%nat))).
      pose proof (length_set sessions (generateSessionId rnd (clock 0%nat)) (clock 1%nat)). lia. }
    split.
    { intros k c Hin%elem_of_evict_any. apply elem_of_set in Hin as [?|[-> ->]]; auto. }
    split; [done|]. split; [|done]. split; [done|]. by intros [].
  - repeat split; try done; try lia; auto.
    + intros _ [= ?]. done.
    + intros [= ?]. done.
  - repeat split; try done; try lia; auto.
Qed.

Lemma auth_keeps_registry_sound_witness :
  let clock := fun i : nat => 100000000 + Z.of_nat i in
  let reply := (auth "secret" (Some "secret") "k3j9x" clock two_sessions).1 in
  let after := (auth "secret" (Some "secret") "k3j9x" clock two_sessions).2 in
  well_formed after
  /\ (length after <= length two_sessions + 1)%nat
  /\ (forall k c, (k, c) ∈ after ->
        (k, c) ∈ two_sessions \/ (reply = Granted k /\ c = clock 1%nat))
  /\ (reply = Denied -> after = two_sessions)
  /\ (reply = Denied <-> Some "secret" <> Some "secret")
  /\ (Some "secret" = Some "secret" ->
        reply = Granted (generateSessionId "k3j9x" (clock 0%nat))).
Proof.
  apply (auth_keeps_registry_sound "secret" (Some "secret") "k3j9x"
           (fun i : nat => 100000000 + Z.of_nat i) two_sessions).
  unfold well_formed. apply (bool_decide_unpack _). vm_compute. exact I.
Defined.

End GateMore.

(** ** What a download does to the temp directory *)

Module DownloadMore.
Import Js JsFacts Http Spec Samples MoreSpec.
Local Open Scope handler_scope.

(** [makeRequest] of src/server.js, on any network: the variable of the
    handler is not touched, the log only grows, by requests and at most
    an unlink of the destination, and the directory is changed at the
    destination alone: written on success, as it was or unlinked on a
    failure. *)
Lemma makeRequest_effects (fuel : nat) (net : network) (t : stamps)
    (dest u : string) (b : bool) (w w' : world) (o : outcome unit) :
  RapidApi.makeRequest fuel net t dest b u w = Some (o, w') ->
  slot w' = slot w
  /\ (exists l, log w' = log w ++ l
                /\ forall e, e ∈ l -> (exists v, e = HttpGet v) \/ e = Unlink dest)
  /\ match o with
     | Return _ => exists n, temp w' = <[ dest := file_of (finished t) n ]> (temp w)
     | Throw _ => temp w' = temp w \/ temp w' = unlinked (temp w) dest
     end.
Proof.
  revert u b w. induction fuel as [|fuel IH]; intros u b w; simpl; [done|].
  destruct (protocol_get net u) as [r|reason|reason].
  - unfold bind at 1, emit at 1. simpl.
    destruct (RapidApi.redirect_target r) as [next|].
    + intros (Hslot & (l & Hlog & Hl) & Htemp)%IH. simpl in Hslot, Hlog, Htemp.
      split; [done|]. split; [|done].
      exists (HttpGet u :: l). split; [by rewrite Hlog, <- List.app_assoc|].
      intros e [->|He]%elem_of_cons; [left; by eexists|by apply Hl].
    + destruct (negb (statusCode r =? 200)).
      * intros [= <- <-]. split; [done|]. split; [|by left].
        exists [HttpGet u]. split; [done|]. intros e ->%list_elem_of_singleton.
        left. by eexists.
      * intros [= <- <-]. split; [done|]. split; [|by eexists].
        exists [HttpGet u]. split; [done|]. intros e ->%list_elem_of_singleton.
        left. by eexists.
  - unfold bind at 1, emit at 1. simpl.
    intros [= <- <-]. split; [done|]. split; [|by right].
    exists [HttpGet u; Unlink dest]. split; [by rewrite <- List.app_assoc|].
    intros e [->|He]%elem_of_cons; [left; by eexists|].
    apply list_elem_of_singleton in He as ->. by right.
  - destruct b; [done|]. intros [= <- <-]. split; [done|]. split; [|by left].
    exists []. split; [by rewrite List.app_nil_r|]. by intros e ?%elem_of_nil.
Qed.

Lemma downloadFile_server_all (fuel : nat) (net : network) (t : stamps)
    (url dest : string) (w w' : world) (o : outcome unit) :
  RapidApi.downloadFile fuel net t url dest w = Some (o, w') ->
  slot w' = slot w
  /\ (exists l, log w' = log w ++ l /\ forall e, e ∈ l -> transfer_event dest e)
  /\ match o with
     | Return _ => exists n, temp w' = <[ dest := file_of (finished t) n ]> (temp w)
     | Throw _ =>
         temp w' = <[ dest := file_of (opened t) 0 ]> (temp w)
         \/ temp w' = delete dest (temp w)
     end.
Proof.
  unfold RapidApi.downloadFile, open_write.
  unfold bind at 1, bind at 1, emit at 1, modify at 1. simpl.
  intros (Hslot & (l & Hlog & Hl) & Htemp)%makeRequest_effects.
  simpl in Hslot, Hlog, Htemp. split; [done|]. split.
  - exists (OpenWrite dest :: l). split; [by rewrite Hlog, <- List.app_assoc|].
    intros e [->|He]%elem_of_cons; [by left|].
    destruct (Hl e He) as [?|?]; right; [by left|by right].
  - destruct o as [[]|e].
    + destruct Htemp as [n ->]. exists n. by rewrite insert_insert_eq.
    + destruct Htemp as [->| ->]; [by left|right].
      unfold unlinked, Fs.unlink. rewrite lookup_insert_eq. simpl.
      by rewrite delete_insert_eq.
Qed.






(** *** The counting downloader of src/Dockerfile *)

Lemma gets_app (w : world) (l : list event) :
  omap (fun e => match e with HttpGet u => Some u | _ => None end) (log w ++ l)
  = gets w ++ omap (fun e => match e with HttpGet u => Some u | _ => None end) l.
Proof. unfold gets. apply omap_app. Qed.

Lemma mp36_makeRequest_bounded (fuel : nat) (net : network) (t : stamps)
    (dest u : string) (b : bool) (c : Z) (w w' : world) (o : outcome unit) :
  Mp36.makeRequest fuel net t dest b u c w = Some (o, w') ->
  (length (gets w') <= length (gets w) + Z.to_nat (6 - c))%nat.
Proof.
  revert u b c w. induction fuel as [|fuel IH]; intros u b c w; simpl; [done|].
  destruct (Z.gtb_spec c 5) as [Hover|Hunder]; [intros [= <- <-]; lia|].
  destruct (protocol_get net u) as [r|reason|reason].
  - unfold bind at 1, emit at 1. simpl.
    destruct (RapidApi.redirect_target r) as [next|].
    + intros Hrun%IH. unfold gets in Hrun at 2. simpl in Hrun.
      rewrite gets_app, length_app in Hrun. simpl in Hrun. lia.
    + destruct (negb (statusCode r =? 200)); intros [= <- <-];
        unfold gets at 1; simpl; rewrite gets_app, length_app; simpl; lia.
  - unfold bind at 1, emit at 1. simpl. intros [= <- <-].
    unfold gets at 1. simpl. rewrite <- List.app_assoc, gets_app, length_app. simpl. lia.
  - destruct b; [done|]. intros [= <- <-]. lia.
Qed.

(** [downloadFile] of src/Dockerfile, on any network and from any URL:
    whenever it settles it has made at most six requests, the first and
    those of five redirects. *)
Theorem mp36_downloadFile_bounded (fuel : nat) (net : network) (t : stamps)
    (url dest : string) (w w' : world) (o : outcome unit) :
  Mp36.downloadFile fuel net t url dest w = Some (o, w') ->
  (length (gets w') <= length (gets w) + 6)%nat.
Proof.
  unfold Mp36.downloadFile, open_write.
  unfold bind at 1, bind at 1, emit at 1, modify at 1. simpl.
  intros Hrun%mp36_makeRequest_bounded. unfold gets in Hrun at 2. simpl in Hrun.
  rewrite gets_app, length_app in Hrun. simpl in Hrun. lia.
Qed.

(** On the redirect that leads back to itself, which the other two
    downloaders follow for ever, it rejects after six requests. *)
Lemma mp36_downloadFile_bounded_witness :
  exists w', Mp36.downloadFile 8 redirect_loop stamped "https://cdn.example/self" "t.mp3"
               (initial ∅)
             = Some (Throw (Error "Too many redirects"), w')
             /\ (length (gets w') <= length (gets (initial ∅)) + 6)%nat.
Proof.
  eexists. split; [vm_compute; reflexivity|].
  apply (mp36_downloadFile_bounded 8 redirect_loop stamped "https://cdn.example/self" "t.mp3"
           (initial ∅) _ (Throw (Error "Too many redirects"))).
  vm_compute. reflexivity.
Defined.

End DownloadMore.

(** ** The handlers, run for run *)

Module PipelineMore.
Import Js JsFacts Http Spec Samples MoreSpec Paths DownloadMore.
Local Open Scope handler_scope.

(** The [try] block of GET /api/convert of src/server.js, on any
    resolver and any network. *)
Lemma convert_try_all (sanitize : string -> string) (api : RapidApi.resolver)
    (net : network) (fuel : nat) (now : Z) (rnd : string) (t : stamps)
    (videoId quality : string) (w w' : world) (o : outcome reply) :
  RapidApi.convert_try sanitize api net fuel now rnd t videoId quality w = Some (o, w') ->
  slot w' = slot w
  /\ exists l,
      (forall e, e ∈ l -> transfer_event (temp_name now rnd) e)
      /\ match o with
         | Return r =>
             log w' = log w ++ CallResolver (download_path videoId quality) :: l ++ [Respond r]
             /\ match r with
                | Attachment file name len =>
                    file = temp_name now rnd
                    /\ exists n, temp w' = <[ file := file_of (finished t) n ]> (temp w)
                                 /\ len = Some n
                | Json status _ => status = 400 /\ temp w' = temp w
                end
         | Throw _ =>
             log w' = log w ++ CallResolver (download_path videoId quality) :: l
             /\ (temp w' = temp w
                 \/ temp w' = <[ temp_name now rnd := file_of (opened t) 0 ]> (temp w)
                 \/ temp w' = delete (temp_name now rnd) (temp w))
         end.
Proof.
  unfold RapidApi.convert_try, RapidApi.rapidApiRequest.
  fold (download_path videoId quality).
  unfold bind at 1, bind at 1, emit at 1. simpl.
  destruct (api (download_path videoId quality)) as [result|reason]; simpl.
  - destruct (RapidApi.pick_link result) as [downloadUrl|].
    + unfold bind at 1.
      destruct (RapidApi.downloadFile fuel net t downloadUrl (temp_name now rnd) _)
        as [[[[]|e] w1]|] eqn:Hdl; [| |done];
        apply downloadFile_server_all in Hdl as (Hslot & (l & Hlog & Hl) & Htemp);
        simpl in Hslot, Hlog.
      * destruct Htemp as [n Htemp]. simpl in Htemp.
        unfold bind at 1, Http.stat at 1, bind at 1, read_temp at 1, Fs.stat.
        rewrite Htemp, lookup_insert_eq. unfold ret at 1.
        unfold respond, bind, emit, ret. simpl. intros [= <- <-]. simpl.
        split; [done|]. exists l. split; [done|]. split.
        -- rewrite Hlog. by rewrite <- !List.app_assoc.
        -- split; [done|]. by exists n.
      * intros [= <- <-]. split; [done|]. exists l. split; [done|].
        split; [by rewrite Hlog, <- List.app_assoc|]. simpl in Htemp.
        destruct Htemp as [?|?]; auto.
    + unfold respond, bind, emit, ret. simpl. intros [= <- <-]. simpl.
      split; [done|]. exists []. split; [by intros e ?%elem_of_nil|].
      split; [by rewrite <- List.app_assoc|done].
  - intros [= <- <-]. split; [done|]. exists []. split; [by intros e ?%elem_of_nil|].
    split; [done|by left].
Qed.

Lemma convert_get_all (isURL : string -> bool) (sanitize : string -> string)
    (sessions : Gate.registry) (api : RapidApi.resolver) (net : network)
    (fuel : nat) (now : Z) (rnd : string) (t : stamps) (req : RapidApi.convert_request)
    (w w' : world) (o : outcome reply) :
  RapidApi.convert isURL sanitize sessions api net fuel now rnd t req w = Some (o, w') ->
  exists r l,
    o = Return r /\ slot w' = slot w /\ log w' = log w ++ l ++ [Respond r]
    /\ (l = [] \/
        exists u id l0,
          Gate.isAuthenticated (RapidApi.creds req) sessions = true
          /\ RapidApi.query_url req = Some u /\ isURL u = true
          /\ VideoId.extractVideoId u = Some id
          /\ l = CallResolver (download_path id (quality_of req)) :: l0
          /\ forall e, e ∈ l0 -> transfer_event (temp_name now rnd) e)
    /\ match r with
       | Attachment file name len =>
           file = temp_name now rnd
           /\ exists n, temp w' = <[ file := file_of (finished t) n ]> (temp w) /\ len = Some n
       | Json status _ =>
           (status = 401 \/ status = 400 \/ status = 500)
           /\ (temp w' = temp w
               \/ temp w' = <[ temp_name now rnd := file_of (opened t) 0 ]> (temp w)
               \/ temp w' = delete (temp_name now rnd) (temp w))
       end.
Proof.
  unfold RapidApi.convert.
  assert (Hplain : forall status b,
            (status = 401 \/ status = 400 \/ status = 500) ->
            respond (Json status b) w = Some (o, w') ->
            exists r l,
              o = Return r /\ slot w' = slot w /\ log w' = log w ++ l ++ [Respond r]
              /\ (l = [] \/
                  exists u id l0,
                    Gate.isAuthenticated (RapidApi.creds req) sessions = true
                    /\ RapidApi.query_url req = Some u /\ isURL u = true
                    /\ VideoId.extractVideoId u = Some id
                    /\ l = CallResolver (download_path id (quality_of req)) :: l0
                    /\ forall e, e ∈ l0 -> transfer_event (temp_name now rnd) e)
              /\ match r with
                 | Attachment file name len =>
                     file = temp_name now rnd
                     /\ exists n, temp w' = <[ file := file_of (finished t) n ]> (temp w)
                                  /\ len = Some n
                 | Json status _ =>
                     (status = 401 \/ status = 400 \/ status = 500)
                     /\ (temp w' = temp w
                         \/ temp w' = <[ temp_name now rnd := file_of (opened t) 0 ]> (temp w)
                         \/ temp w' = delete (temp_name now rnd) (temp w))
                 end).
  { intros status b Hst. unfold respond, bind, emit, ret. simpl. intros [= <- <-].
    exists (Json status b), []. simpl. repeat split; auto. }
  destruct (Gate.isAuthenticated (RapidApi.creds req) sessions) eqn:Hauth; cbn [negb];
    [|apply Hplain; auto].
  destruct (RapidApi.query_url req) as [u|] eqn:Hu; [|apply Hplain; auto].
  destruct (truthy u); cbn [negb orb]; [|apply Hplain; auto].
  destruct (isURL u) eqn:HisURL; cbn [negb]; [|apply Hplain; auto].
  destruct (VideoId.extractVideoId u) as [videoId|] eqn:Hid; [|apply Hplain; auto].
  unfold try_catch. fold (quality_of req).
  destruct (RapidApi.convert_try sanitize api net fuel now rnd t videoId (quality_of req) w)
    as [[[r|e] w1]|] eqn:Htry; [| |done];
    apply convert_try_all in Htry as (Hslot & l0 & Hl0 & Hrest).
  - intros [= <- <-]. destruct Hrest as [Hlog Hr].
    exists r, (CallResolver (download_path videoId (quality_of req)) :: l0).
    split; [done|]. split; [done|]. split; [by rewrite Hlog|].
    split; [right; by exists u, videoId, l0|].
    destruct r as [status b|file name len]; [|done].
    destruct Hr as [-> ->]. auto.
  - unfold respond, bind, emit, ret. simpl. intros [= <- <-]. simpl.
    destruct Hrest as [Hlog Htemp]. eexists _, (CallResolver _ :: l0).
    split; [done|]. split; [done|]. split; [by rewrite Hlog, <- List.app_assoc|].
    split; [right; by exists u, videoId, l0|]. split; [auto|done].
Qed.

(** GET /api/convert of src/server.js, on any request, resolver and
    network: the handler never throws; it sends one reply, as its last
    act; it calls the resolver only for an authenticated request whose
    URL passed the check and yielded an ID, and then with that ID; it
    changes no entry of the temp directory but its own temp file; and
    when it streams, the Content-Length it announces is the size of the
    temp file on disk. *)
Theorem convert_get_contract (isURL : string -> bool) (sanitize : string -> string)
    (sessions : Gate.registry) (api : RapidApi.resolver) (net : network)
    (fuel : nat) (now : Z) (rnd : string) (t : stamps) (req : RapidApi.convert_request)
    (w w' : world) (o : outcome reply) :
  RapidApi.convert isURL sanitize sessions api net fuel now rnd t req w = Some (o, w') ->
  exists r l,
    o = Return r
    /\ log w' = log w ++ l ++ [Respond r]
    /\ (forall r', Respond r' ∉ l)
    /\ (forall p, CallResolver p ∈ l ->
          Gate.isAuthenticated (RapidApi.creds req) sessions = true
          /\ exists u id, RapidApi.query_url req = Some u /\ isURL u = true
                          /\ VideoId.extractVideoId u = Some id
                          /\ p = download_path id (quality_of req))
    /\ (forall f, f <> temp_name now rnd -> temp w' !! f = temp w !! f)
    /\ (forall file name len, r = Attachment file name len ->
          file = temp_name now rnd
          /\ exists n, temp w' !! file = Some (file_of (finished t) n) /\ len = Some n).
Proof.
  intros (r & l & -> & _ & Hlog & Hl & Hr)%convert_get_all. exists r, l.
  split; [done|]. split; [done|].
  assert (Hev : forall e, e ∈ l ->
            (exists u id, Gate.isAuthenticated (RapidApi.creds req) sessions = true
                          /\ RapidApi.query_url req = Some u /\ isURL u = true
                          /\ VideoId.extractVideoId u = Some id
                          /\ e = CallResolver (download_path id (quality_of req)))
            \/ transfer_event (temp_name now rnd) e).
  { destruct Hl as [->|(u & id & l0 & ? & ? & ? & ? & -> & Hl0)].
    - by intros e ?%elem_of_nil.
    - intros e [->|He]%elem_of_cons; [left; by exists u, id|right; by apply Hl0]. }
  split.
  { intros r' [(? & ? & _ & _ & _ & _ & [=])|[[=]|[[? [=]]|[=]]]]%Hev. }
  split.
  { intros p [(u & id & ? & ? & ? & ? & [= ->])|[[=]|[[? [=]]|[=]]]]%Hev.
    split; [done|]. by exists u, id. }
  split.
  - intros f Hf. destruct r as [status b|file name len].
    + destruct Hr as [_ [->|[->| ->]]]; [done|by rewrite lookup_insert_ne|by rewrite lookup_delete_ne].
    + destruct Hr as [-> (n & -> & _)]. by rewrite lookup_insert_ne.
  - intros file name len ->. destruct Hr as [-> (n & -> & ->)].
    split; [done|]. exists n. by rewrite lookup_insert_eq.
Qed.

Lemma convert_get_contract_witness :
  exists r l,
    Return (Attachment "1700000000000-x7k2q.mp3" "Song.mp3" (Some 4096)) = Return r
    /\ log streamed = log (initial ∅) ++ l ++ [Respond r]
    /\ (forall r', Respond r' ∉ l)
    /\ (forall p, CallResolver p ∈ l ->
          Gate.isAuthenticated (RapidApi.creds (request_for "https://youtu.be/dQw4w9WgXcQ"))
            members = true
          /\ exists u id,
               RapidApi.query_url (request_for "https://youtu.be/dQw4w9WgXcQ") = Some u
               /\ web_url u = true /\ VideoId.extractVideoId u = Some id
               /\ p = download_path id (quality_of (request_for "https://youtu.be/dQw4w9WgXcQ")))
    /\ (forall f, f <> temp_name 1700000000000 "x7k2q" ->
          temp streamed !! f = temp (initial ∅) !! f)
    /\ (forall file name len, r = Attachment file name len ->
          file = temp_name 1700000000000 "x7k2q"
          /\ exists n, temp streamed !! file = Some (file_of (finished stamped) n) /\ len = Some n).
Proof.
  apply (convert_get_contract web_url drop_illegal members api_link net_ok 5 1700000000000
           "x7k2q" stamped (request_for "https://youtu.be/dQw4w9WgXcQ") (initial ∅) streamed).
  vm_compute. reflexivity.
Defined.

(** A conversion that streamed, followed by the close of the stream,
    leaves the temp directory as the request found it, when the temp name
    was free. *)
Theorem convert_get_then_close (isURL : string -> bool) (sanitize : string -> string)
    (sessions : Gate.registry) (api : RapidApi.resolver) (net : network)
    (fuel : nat) (now : Z) (rnd : string) (t : stamps) (req : RapidApi.convert_request)
    (w w' : world) (file name : string) (len : option Z) :
  temp w !! temp_name now rnd = None ->
  RapidApi.convert isURL sanitize sessions api net fuel now rnd t req w
  = Some (Return (Attachment file name len), w') ->
  exists w'', RapidApi.on_close file w' = Some (Return tt, w'') /\ temp w'' = temp w.
Proof.
  intros Hfree (r & l & [= <-] & _ & _ & _ & -> & n & Htemp & _)%convert_get_all.
  unfold RapidApi.on_close, unlink_quiet, bind, emit, modify. simpl.
  eexists. split; [reflexivity|]. simpl.
  unfold Fs.unlink. rewrite Htemp, lookup_insert_eq. simpl.
  rewrite delete_insert_eq. by apply delete_id.
Qed.

Lemma convert_get_then_close_witness :
  exists w'', RapidApi.on_close "1700000000000-x7k2q.mp3" streamed = Some (Return tt, w'')
              /\ temp w'' = temp (initial ∅).
Proof.
  apply (convert_get_then_close web_url drop_illegal members api_link net_ok 5
           1700000000000 "x7k2q" stamped (request_for "https://youtu.be/dQw4w9WgXcQ")
           (initial ∅) streamed "1700000000000-x7k2q.mp3" "Song.mp3" (Some 4096)).
  - reflexivity.
  - vm_compute. reflexivity.
Defined.

(** *** POST /api/convert of the Cobalt variant *)







(** *** POST /api/convert of the yt-dlp variant *)







End PipelineMore.

(** ** GET /api/info *)

Module InfoFacts.
Import Js JsFacts Http Spec Samples MoreSpec.
Local Open Scope handler_scope.

Lemma opt_or_nonempty (o : option string) (b : string) : b <> "" -> opt_or o b <> "".
Proof.
  intros Hb. unfold opt_or. destruct o as [s|]; [by apply or_else_nonempty|done].
Qed.

Lemma opt_or_truthy (o : option string) (b : string) :
  truthy_opt o = true -> Some (opt_or o b) = o.
Proof.
  unfold opt_or, or_else, truthy_opt. destruct o as [s|]; [|done]. by intros ->.
Qed.

Example info_sample :
  Info.info members details_api (info_request_for "https://youtu.be/dQw4w9WgXcQ") (initial ∅)
  = Some (Return (Info.Details "Song" "Artist" (Info.Str "213")
                    "https://i.ytimg.com/vi/dQw4w9WgXcQ/default.jpg"),
          asked_details).
Proof. vm_compute. reflexivity. Qed.

(** GET /api/info, on any request and any resolver: the handler never
    throws and never touches the temp directory; it calls the resolver at
    most once, only for an authenticated request whose URL yields an ID,
    with the path made of that 11-character ID; every error it sends is
    one of five fixed messages; and the details it sends carry the
    resolver's own non-empty title and a non-empty author. *)
Theorem info_contract (sessions : Gate.registry) (api : Info.resolver)
    (req : Info.info_request) (w w' : world) (o : outcome Info.reply) :
  Info.info sessions api req w = Some (o, w') ->
  exists r,
    o = Return r /\ temp w' = temp w /\ slot w' = slot w
    /\ (log w' = log w
        \/ exists u id,
             Gate.isAuthenticated (Info.creds req) sessions = true
             /\ Info.query_url req = Some u
             /\ VideoId.extractVideoId u = Some id /\ VideoId.is_id id
             /\ log w' = log w ++ [ CallResolver ("/video_details?id=" +:+ id) ])
    /\ match r with
       | Info.Refused status error => (status, error) ∈ info_refusals
       | Info.Details title author _ _ =>
           title <> "" /\ author <> ""
           /\ exists path result, api path = Info.ApiJson result
                                  /\ Info.title result = Some title
       end.
Proof.
  unfold Info.info, info_refusals.
  destruct (Gate.isAuthenticated (Info.creds req) sessions) eqn:Hauth; cbn [negb].
  2: { intros [= <- <-]. eexists. repeat split; [by left|set_solver]. }
  destruct (Info.query_url req) as [u|] eqn:Hu.
  2: { intros [= <- <-]. eexists. repeat split; [by left|set_solver]. }
  destruct (truthy u); cbn [negb].
  2: { intros [= <- <-]. eexists. repeat split; [by left|set_solver]. }
  destruct (VideoId.extractVideoId u) as [id|] eqn:Hid.
  2: { intros [= <- <-]. eexists. repeat split; [by left|set_solver]. }
  pose proof (VideoIdFacts.extractVideoId_Some _ _ Hid) as [Hisid _].
  unfold try_catch, Info.rapidApiRequest. unfold bind at 1, bind at 1, emit at 1. simpl.
  destruct (api ("/video_details?id=" +:+ id)) as [result|reason] eqn:Hapi; simpl.
  - destruct (Info.truthy_scalar (Info.error result)); cbn [orb].
    { intros [= <- <-]. eexists. repeat split; [right; by exists u, id|set_solver]. }
    destruct (truthy_opt (Info.title result)) eqn:Htitle; cbn [negb].
    2: { intros [= <- <-]. eexists. repeat split; [right; by exists u, id|set_solver]. }
    intros [= <- <-]. eexists. repeat split; [right; by exists u, id|..].
    + by apply opt_or_nonempty.
    + unfold Info.pick_author. by apply opt_or_nonempty.
    + exists ("/video_details?id=" +:+ id), result. split; [done|].
      symmetry. by apply opt_or_truthy.
  - intros [= <- <-]. eexists. repeat split; [right; by exists u, id|set_solver].
Qed.

Lemma info_contract_witness :
  exists r,
    Return (Info.Details "Song" "Artist" (Info.Str "213")
              "https://i.ytimg.com/vi/dQw4w9WgXcQ/default.jpg") = Return r
    /\ temp asked_details = temp (initial ∅) /\ slot asked_details = slot (initial ∅)
    /\ (log asked_details = log (initial ∅)
        \/ exists u id,
             Gate.isAuthenticated
               (Info.creds (info_request_for "https://youtu.be/dQw4w9WgXcQ")) members = true
             /\ Info.query_url (info_request_for "https://youtu.be/dQw4w9WgXcQ") = Some u
             /\ VideoId.extractVideoId u = Some id /\ VideoId.is_id id
             /\ log asked_details
                = log (initial ∅) ++ [ CallResolver ("/video_details?id=" +:+ id) ])
    /\ match r with
       | Info.Refused status error => (status, error) ∈ info_refusals
       | Info.Details title author _ _ =>
           title <> "" /\ author <> ""
           /\ exists path result, details_api path = Info.ApiJson result
                                  /\ Info.title result = Some title
       end.
Proof.
  apply (info_contract members details_api (info_request_for "https://youtu.be/dQw4w9WgXcQ")
           (initial ∅)).
  vm_compute. reflexivity.
Defined.

End InfoFacts.

(** ** The sweep as a backstop of the pipeline *)

Module Backstop.
Import Js Http Fs Spec Samples MoreSpec SweepFacts PipelineMore.

(** Whatever GET /api/convert of src/server.js leaves at its temp path,
    a file it could not clean up included, the sweep of the same file
    removes it once the file system's stamps of the download are more
    than 30 minutes old: for a temp name that was free, and a sweep over
    the listing of a directory of regular files. *)
Theorem sweep_reclaims_leftover (isURL : string -> bool) (sanitize : string -> string)
    (sessions : Gate.registry) (api : RapidApi.resolver) (net : network)
    (fuel : nat) (now : Z) (rnd : string) (t : stamps) (req : RapidApi.convert_request)
    (w w' : world) (o : outcome reply) (later : Z) (files : list string) :
  temp w !! temp_name now rnd = None ->
  RapidApi.convert isURL sanitize sessions api net fuel now rnd t req w = Some (o, w') ->
  is_listing files (temp w') ->
  map_Forall (fun _ st => isDirectory st = false) (temp w') ->
  later - opened t > MAX_FILE_AGE_MS ->
  later - finished t > MAX_FILE_AGE_MS ->
  (SweepA.cleanupOldFiles later files (temp w')).1 !! temp_name now rnd = None.
Proof.
  intros Hfree (r & l & _ & _ & _ & _ & Hr)%convert_get_all Hlist Hreg Hopened Hfinished.
  assert (Ht : temp w' !! temp_name now rnd = None
               \/ exists st, temp w' !! temp_name now rnd = Some st
                             /\ later - mtimeMs st > MAX_FILE_AGE_MS).
  { destruct r as [status b|file name len].
    - destruct Hr as [_ [->|[->| ->]]];
        [by left|right; eexists; by rewrite lookup_insert_eq|left; by rewrite lookup_delete_eq].
    - destruct Hr as [-> (n & -> & _)]. right. eexists. by rewrite lookup_insert_eq. }
  unfold SweepA.cleanupOldFiles. rewrite loopA_loopB.
  - simpl. rewrite loopB_lookup. destruct Ht as [->|(st & Hst & Hold)]; [done|]. rewrite Hst.
    unfold swept. rewrite bool_decide_eq_true_2.
    + apply expired_iff in Hold. rewrite Hold. by rewrite (Hreg _ _ Hst).
    + apply (listing_elem_of files (temp w')); [done|by eexists].
  - by eapply listing_NoDup.
  - intros f [st Hst]%(listing_elem_of files (temp w')); [|done].
    exists st. split; [done|]. by apply (Hreg f).
Qed.

Lemma sweep_reclaims_leftover_witness :
  (SweepA.cleanupOldFiles 1700001800951 (map_to_list (temp orphaned)).*1 (temp orphaned)).1
    !! temp_name 1700000000000 "x7k2q" = None.
Proof.
  apply (sweep_reclaims_leftover web_url drop_illegal members api_link net_404 5
           1700000000000 "x7k2q" stamped (request_for "https://youtu.be/dQw4w9WgXcQ")
           (initial ∅) orphaned
           (Return (conversion_failed "Download failed with status 404"))).
  - reflexivity.
  - vm_compute. reflexivity.
  - unfold is_listing. reflexivity.
  - apply map_Forall_insert_2; [reflexivity|]. apply map_Forall_empty.
  - vm_compute. reflexivity.
  - vm_compute. reflexivity.
Defined.

(** Thirty minutes and a millisecond after the request read the clock
    for the name of its file, the file left behind is still too young
    for the sweep: it was stamped after that reading. *)
Example sweep_too_early :
  (SweepA.cleanupOldFiles 1700001800001 ["1700000000000-x7k2q.mp3"] (temp orphaned)).1
    !! "1700000000000-x7k2q.mp3" = Some (file_of 1700000000002 0).
Proof. vm_compute. reflexivity. Qed.

End Backstop.
